(** * cputest/unaligned_stores: store model of the unaligned-store test

    A shallow embedding of [cputest/unaligned_stores.cpp].  The helpers of
    that file are thin wrappers around inline PowerPC assembly, so each of
    them is embedded as the instruction sequence it issues; [exec] gives
    those instructions their architectural meaning on an ordinary
    (cache-backed) byte-addressed memory.  What the processor really does on
    the memory under test is left abstract.

    Addresses are integers and pointer arithmetic is plain integer
    arithmetic; [u32], [size_t] and [uintptr_t] values are 32 bits wide, as
    on the processor the test is written for, and their arithmetic wraps.
    Loops whose counter can wrap take a bound on their number of steps and
    answer [None] when it is too small. *)

From Stdlib Require Import ZArith List Lia Bool.
From stdpp Require Import base tactics option numbers functions list list_numbers.

Local Open Scope Z_scope.

(** ** 32-bit words and their bytes *)

(** [u32] and [uintptr_t] arithmetic is arithmetic modulo [2^32]. *)
Definition wrap32 (x : Z) : Z := x mod 2 ^ 32.

(** Byte [k] of a word, byte 0 being the least significant one. *)
Definition byte_of (v k : Z) : Z := Z.land (Z.shiftr v (8 * k)) 255.

Module Common.

(** Modelled from the spec: [Common::RotateRight] of Common/BitUtils.h, a
    header that is not part of the sources; "the value is right-rotated by
    [n] bits" on a 32-bit word. *)
Definition RotateRight (value amount : Z) : Z :=
  let a := amount mod 32 in
  wrap32 (Z.lor (Z.shiftr value a) (Z.shiftl value (32 - a))).

(** Modelled from the spec: the left rotation that the rotation round-trip
    property pairs with [RotateRight]; also declared in Common/BitUtils.h. *)
Definition RotateLeft (value amount : Z) : Z :=
  let a := amount mod 32 in
  wrap32 (Z.lor (Z.shiftl value a) (Z.shiftr value (32 - a))).

End Common.

(** ** Constants of the test *)

Inductive Mode : Set := Regular | Swap | Stswi | Stswx.

Definition STSW_VALUES : list Z :=
  [ 0x10; 0x11; 0x12; 0x13; 0x14; 0x15; 0x16; 0x17;
    0x18; 0x19; 0x1a; 0x1b; 0x1c; 0x1d; 0x1e; 0x1f;
    0x20; 0x21; 0x22; 0x23; 0x24; 0x25; 0x26; 0x27;
    0x28; 0x29; 0x2a; 0x2b; 0x2c; 0x2d; 0x2e; 0x2f ].

(** ** The instructions the test issues *)

(** Store instructions carry the value of their source register and their
    effective address.  The string instructions name the first register of
    the register run they use.  [lswx] reads from a constant array, which is
    given by its contents. *)
Inductive insn : Type :=
  | stwx (value ea : Z)
  | stwbrx (value ea : Z)
  | sthx (value ea : Z)
  | sthbrx (value ea : Z)
  | stbx (value ea : Z)
  | mtxer (value : Z)
  | lswx (rt : Z) (src : list Z)
  | stswi (rs ea nb : Z)
  | stswx (rs ea : Z).

Record machine : Type := Machine {
  mem : Z -> Z;   (* byte at each address *)
  gpr : Z -> Z;   (* general purpose registers r0..r31 *)
  xer : Z
}.

Fixpoint store_bytes (m : Z -> Z) (ea : Z) (bs : list Z) : Z -> Z :=
  match bs with
  | [] => m
  | b :: bs' => store_bytes (<[ea := b]> m) (ea + 1) bs'
  end.

Definition read_bytes (m : Z -> Z) (ea len : Z) : list Z :=
  m <$> seqZ ea len.

(** Big-endian byte image of the low [size] bytes of a word. *)
Definition be_bytes (value size : Z) : list Z :=
  (fun k => byte_of value (size - 1 - k)) <$> seqZ 0 size.

(** Byte-reversed image. *)
Definition le_bytes (value size : Z) : list Z :=
  (fun k => byte_of value k) <$> seqZ 0 size.

(** The byte count of a string instruction is a 7-bit field of XER. *)
Definition xer_count (x : Z) : Z := Z.land x 127.

(** [stswi] encodes a count of 32 as 0. *)
Definition stswi_nbytes (nb : Z) : Z := if nb =? 0 then 32 else nb.

(** Byte [k] of the register run that starts at register [r]; registers are
    filled most significant byte first and r31 is followed by r0. *)
Definition string_byte (g : Z -> Z) (r k : Z) : Z :=
  byte_of (g ((r + k / 4) mod 32)) (3 - k mod 4).

Definition be_word (b0 b1 b2 b3 : Z) : Z :=
  Z.lor (Z.shiftl b0 24) (Z.lor (Z.shiftl b1 16) (Z.lor (Z.shiftl b2 8) b3)).

(** [lswx rt] with count [n]: the bytes go to [rt], [rt+1], ... four at a
    time; the unfilled bytes of the last register are cleared. *)
Definition load_string (g : Z -> Z) (rt : Z) (src : list Z) (n : Z) : Z -> Z :=
  fun r =>
    let j := (r - rt) mod 32 in
    let b k := if k <? n then nth (Z.to_nat k) src 0 else 0 in
    if 4 * j <? n
    then be_word (b (4 * j)) (b (4 * j + 1)) (b (4 * j + 2)) (b (4 * j + 3))
    else g r.

Definition store_string (s : machine) (rs ea n : Z) : Z -> Z :=
  store_bytes (mem s) ea (string_byte (gpr s) rs <$> seqZ 0 n).

Definition exec (i : insn) (s : machine) : machine :=
  match i with
  | stwx v ea => Machine (store_bytes (mem s) ea (be_bytes v 4)) (gpr s) (xer s)
  | stwbrx v ea => Machine (store_bytes (mem s) ea (le_bytes v 4)) (gpr s) (xer s)
  | sthx v ea => Machine (store_bytes (mem s) ea (be_bytes v 2)) (gpr s) (xer s)
  | sthbrx v ea => Machine (store_bytes (mem s) ea (le_bytes v 2)) (gpr s) (xer s)
  | stbx v ea => Machine (store_bytes (mem s) ea (be_bytes v 1)) (gpr s) (xer s)
  | mtxer v => Machine (mem s) (gpr s) (wrap32 v)
  | lswx rt src =>
      Machine (mem s) (load_string (gpr s) rt src (xer_count (xer s))) (xer s)
  | stswi rs ea nb =>
      Machine (store_string s rs ea (stswi_nbytes nb)) (gpr s) (xer s)
  | stswx rs ea =>
      Machine (store_string s rs ea (xer_count (xer s))) (gpr s) (xer s)
  end.

Definition run (p : list insn) (s : machine) : machine :=
  fold_left (fun s i => exec i s) p s.

(** The bytes a store instruction writes: first address and length. *)
Definition footprint (i : insn) : option (Z * Z) :=
  match i with
  | stwx _ ea | stwbrx _ ea => Some (ea, 4)
  | sthx _ ea | sthbrx _ ea => Some (ea, 2)
  | stbx _ ea => Some (ea, 1)
  | _ => None
  end.

(** ** The helpers of the test *)

Definition Write (ptr value size : Z) (swap : bool) : list insn :=
  match size with
  | 4 => if swap then [stwbrx value ptr] else [stwx value ptr]
  | 2 => if swap then [sthbrx value ptr] else [sthx value ptr]
  | 1 => [stbx value ptr]
  | _ => []
  end.

(** The [for] loop of [WriteWithSimulatedQuirks]; [base] is
    [ptr - misalignment_64].  The counter is a [uintptr_t], so the loop is
    bounded by [fuel] and [None] stands for a run that needs more steps. *)
Fixpoint quirk_loop (fuel : nat) (i count base value : Z) : option (list insn) :=
  match fuel with
  | O => None
  | S fuel' =>
      if i <? count then
        rest ← quirk_loop fuel' (wrap32 (i + 8)) count base value;
        Some (Write (base + i) value 4 false
              ++ Write (base + i + 4) value 4 false ++ rest)
      else Some []
  end.

Definition takes_quirk_path (alignment size : Z) : bool :=
  negb (Z.land alignment 3 =? 0) || (size <? 4).

Definition WriteWithSimulatedQuirks (fuel : nat) (alignment ptr value size : Z)
  : option (list insn) :=
  let misalignment_32 := Z.land alignment 3 in
  if takes_quirk_path alignment size then
    let misalignment_64 := Z.land alignment 7 in
    let count := wrap32 (misalignment_64 + size) in
    let value := Common.RotateRight value (wrap32 ((misalignment_32 + size) * 8)) in
    quirk_loop fuel 0 count (ptr - misalignment_64) value
  else Some (Write ptr value size false).

Definition WriteStswiImpl (OutSize : Z) (out_ptr : Z) (in_ptr : list Z) (in_size : Z)
  : list insn :=
  [mtxer in_size; lswx 24 in_ptr; stswi 24 out_ptr OutSize].

Definition stswi_table : list (Z -> list Z -> Z -> list insn) :=
  [ WriteStswiImpl 0;  WriteStswiImpl 1;  WriteStswiImpl 2;  WriteStswiImpl 3;
    WriteStswiImpl 4;  WriteStswiImpl 5;  WriteStswiImpl 6;  WriteStswiImpl 7;
    WriteStswiImpl 8;  WriteStswiImpl 9;  WriteStswiImpl 10; WriteStswiImpl 11;
    WriteStswiImpl 12; WriteStswiImpl 13; WriteStswiImpl 14; WriteStswiImpl 15;
    WriteStswiImpl 16; WriteStswiImpl 17; WriteStswiImpl 18; WriteStswiImpl 19;
    WriteStswiImpl 20; WriteStswiImpl 21; WriteStswiImpl 22; WriteStswiImpl 23;
    WriteStswiImpl 24; WriteStswiImpl 25; WriteStswiImpl 26; WriteStswiImpl 27;
    WriteStswiImpl 28; WriteStswiImpl 29; WriteStswiImpl 30; WriteStswiImpl 31 ].

(** [stswi_table[out_size & 31]]; [None] would be an index outside the
    table. *)
Definition WriteStswi (out_ptr : Z) (in_ptr : list Z) (out_size in_size : Z)
  : option (list insn) :=
  impl ← stswi_table !! Z.to_nat (Z.land out_size 31);
  Some (impl out_ptr in_ptr in_size).

Definition WriteStswx (out_ptr : Z) (in_ptr : list Z) (out_size in_size : Z)
  : list insn :=
  [mtxer in_size; lswx 24 in_ptr; mtxer out_size; stswx 24 out_ptr].

(** [std::copy] of the first [n] bytes of a constant array to a byte
    pointer: one byte store per element.  The array is given by its
    contents, and the copy stops where they end. *)
Fixpoint std_copy (src : list Z) (n : nat) (out : Z) {struct n} : list insn :=
  match n, src with
  | S n', b :: src' => stbx b out :: std_copy src' n' (out + 1)
  | _, _ => []
  end.

Definition WriteStswSimulated (out_ptr : Z) (in_ptr : list Z) (size : Z) : list insn :=
  std_copy in_ptr (Z.to_nat size) out_ptr.

(** [std::fill] over [n] 32-bit words. *)
Fixpoint std_fill (first : Z) (n : nat) (value : Z) : list insn :=
  match n with
  | O => []
  | S n' => stwx value first :: std_fill (first + 4) n' value
  end.

(** ** The sweep: [UnalignedStoresTest] *)

(** What one iteration observes of the memory under test: the 32 bytes at
    [ptr] after the store, and whether [PIErrorHandler] ran, that is the
    value of [s_pi_error_occurred]. *)
Record hw_result : Type := HwResult {
  hw_bytes : list Z;
  hw_pi_error : bool
}.

(** Modelled from the spec: [DO_TEST] of Common/hwtests.h, a header that is
    not part of the sources; a failed check is reported and the caller goes
    on.  The two checks of an iteration are kept as [data_ok] and
    [pi_error_ok], next to the values their report prints. *)
Record trial : Type := Trial {
  offset : Z;
  actual : list Z;
  expected : list Z;
  data_ok : bool;
  pi_error_actual : bool;
  pi_error_expected : bool;
  pi_error_ok : bool
}.

Definition word : Z := 0x12345678.
Definition fill_word : Z := 0x01020304.

Definition swapped_word (mode : Mode) (size : Z) : Z :=
  match mode with
  | Swap => if size =? 2 then 0x12347856 else 0x78563412
  | _ => word
  end.

Definition stsw (mode : Mode) : bool :=
  match mode with
  | Stswi | Stswx => true
  | _ => false
  end.

Definition is_swap (mode : Mode) : bool :=
  match mode with
  | Swap => true
  | _ => false
  end.

Section Sweep.

(** The processor under test: the outcome of the instructions that one
    iteration issues against [ptr]. *)
Variable processor : list insn -> hw_result.

(** Address of the local array [reference_buffer]. *)
Variable reference_buffer : Z.

(** Bound on the steps of the loops. *)
Variable fuel : nat.

Variables (ptr size : Z) (cached_memory : bool) (mode : Mode).

(** The instructions of the store under test and of the reference store
    at offset [i]. *)
Definition stores_at (i : Z) : option (list insn * list insn) :=
  if stsw mode then
    tested ← match mode with
             | Stswi => WriteStswi (ptr + i) STSW_VALUES size
                          (Z.of_nat (length STSW_VALUES))
             | _ => Some (WriteStswx (ptr + i) STSW_VALUES size
                            (Z.of_nat (length STSW_VALUES)))
             end;
    Some (tested, WriteStswSimulated (reference_buffer + i) STSW_VALUES size)
  else
    simulated ← (if cached_memory
                 then Some (Write (reference_buffer + i)
                              (swapped_word mode size) size false)
                 else WriteWithSimulatedQuirks fuel i (reference_buffer + i)
                        (swapped_word mode size) size);
    Some (Write (ptr + i) word size (is_swap mode), simulated).

(** The body of the [for] loop; [s] is the machine that holds
    [reference_buffer]. *)
Definition trial_at (i : Z) (s : machine) : option (trial * machine) :=
  '(tested, simulated) ← stores_at i;
  let hw := processor (std_fill ptr 8 fill_word ++ tested) in
  let s' := run (std_fill reference_buffer 8 fill_word ++ simulated) s in
  let reference := read_bytes (mem s') reference_buffer 32 in
  let pi_error_expected := negb cached_memory && negb (stsw mode) in
  Some (Trial i (hw_bytes hw) reference
          (bool_decide (hw_bytes hw = reference))
          (hw_pi_error hw) pi_error_expected
          (bool_decide (hw_pi_error hw = pi_error_expected)),
        s').

Fixpoint sweep_loop (steps : nat) (i : Z) (s : machine) : option (list trial) :=
  match steps with
  | O => None
  | S steps' =>
      if i <=? wrap32 (32 - size) then
        '(t, s') ← trial_at i s;
        rest ← sweep_loop steps' (wrap32 (i + 1)) s';
        Some (t :: rest)
      else Some []
  end.

Definition UnalignedStoresTest (s : machine) : option (list trial) :=
  sweep_loop fuel 0 s.

End Sweep.

(** [t] is what the loop body records at its offset, from some state of the
    machine that holds [reference_buffer]. *)
Definition recorded (processor : list insn -> hw_result) (reference_buffer : Z)
    (fuel : nat) (ptr size : Z) (cached_memory : bool) (mode : Mode) (t : trial)
  : Prop :=
  exists s0 s1 : machine,
    trial_at processor reference_buffer fuel ptr size cached_memory mode (offset t) s0
    = Some (t, s1).

(** ** Reading the model *)

(** [n] consecutive big-endian word stores of [value], the first at [base]. *)
Definition tile (base n value : Z) : list insn :=
  (fun k => stwx value (base + 4 * k)) <$> seqZ 0 n.

(** The bytes that [n] such stores leave in memory. *)
Definition word_image (n : nat) (value : Z) : list Z :=
  concat (replicate n (be_bytes value 4)).

Definition round_up_8 (n : Z) : Z := 8 * ((n + 7) / 8).

(** The sentinel bytes that [std::fill] leaves in a 32-byte window. *)
Definition sentinel : list Z := word_image 8 fill_word.

(** Contents written over a memory: byte [a - e] of [bs] when there is one. *)
Definition overlay (bs : list Z) (e a : Z) : option Z :=
  if decide (e <= a) then bs !! Z.to_nat (a - e) else None.

(** [ins] is a store whose bytes all lie in [[lo, hi)]. *)
Definition within (lo hi : Z) (ins : insn) : Prop :=
  match footprint ins with
  | Some (ea, n) => lo <= ea /\ ea + n <= hi
  | None => False
  end.

(** A machine and a processor to evaluate the sweep on. *)
Definition zero_machine : machine := Machine (fun _ => 0) (fun _ => 0) 0.
Definition silent (_ : list insn) : hw_result := HwResult [] false.

(** ** The rest of the test program *)

(** [Read]: a 32-bit load, most significant byte first. *)
Definition Read (m : Z -> Z) (ptr : Z) : Z :=
  be_word (m ptr) (m (ptr + 1)) (m (ptr + 2)) (m (ptr + 3)).

Definition PAGE_SIZE : Z := 4096.
Definition CACHE_LINE_SIZE : Z := 32.

(** [GetMEM1Buffer]: [mem1_lo] is what [SYS_GetArena1Lo] answers; the result
    is the returned pointer and the value handed to [SYS_SetArena1Lo].
    [Common::AlignUp] comes from Common/Align.h, which is not part of the
    sources, and is taken as a parameter. *)
Definition GetMEM1Buffer (AlignUp : Z -> Z -> Z) (mem1_lo : Z) : Z * Z :=
  let page_boundary := AlignUp (wrap32 (mem1_lo + CACHE_LINE_SIZE)) PAGE_SIZE in
  (wrap32 (page_boundary - CACHE_LINE_SIZE), wrap32 (page_boundary + CACHE_LINE_SIZE)).

(** The sweeps [main] starts, in order: pointer, size, [cached_memory] and
    mode of each call of [UnalignedStoresTest]. *)
Definition main_sweeps (cached_ptr uncached_ptr : Z) : list (Z * Z * bool * Mode) :=
  [ (cached_ptr, 1, true, Regular); (cached_ptr, 2, true, Regular);
    (cached_ptr, 4, true, Regular); (cached_ptr, 2, true, Swap);
    (cached_ptr, 4, true, Swap) ]
  ++ ((fun size => (cached_ptr, size, true, Stswi)) <$> seqZ 1 32)
  ++ ((fun size => (cached_ptr, size, true, Stswx)) <$> seqZ 0 33)
  ++ [ (uncached_ptr, 1, false, Regular); (uncached_ptr, 2, false, Regular);
       (uncached_ptr, 4, false, Regular); (uncached_ptr, 2, false, Swap);
       (uncached_ptr, 4, false, Swap) ]
  ++ ((fun size => (cached_ptr, size, false, Stswi)) <$> seqZ 1 32)
  ++ ((fun size => (cached_ptr, size, false, Stswx)) <$> seqZ 0 33).

(** A processor whose memory under test at [ptr] is ordinary memory, with
    contents [m0] before the iteration, and which raises no PI error. *)
Definition ordinary (processor : list insn -> hw_result) (ptr : Z) (m0 : machine)
  : Prop :=
  forall p : list insn,
    hw_bytes (processor p) = read_bytes (mem (run p m0)) ptr 32
    /\ hw_pi_error (processor p) = false.

(** Such a processor, on a memory of zeros. *)
Definition plain_processor (ptr : Z) (p : list insn) : hw_result :=
  HwResult (read_bytes (mem (run p zero_machine)) ptr 32) false.

(** A store that names its bytes: it has a footprint. *)
Definition plain (ins : insn) : Prop := is_Some (footprint ins).

(** A byte. *)
Definition is_byte (b : Z) : Prop := 0 <= b < 256.

(** An [AlignUp] to evaluate [GetMEM1Buffer] on: a 32-bit value, as a
    [uintptr_t] result is. *)
Definition align_up (value size : Z) : Z :=
  wrap32 (value + (size - value mod size) mod size).

(** The sentinel window with [mid] written at offset [b]. *)
Definition patched (b : Z) (mid : list Z) : list Z :=
  take (Z.to_nat b) sentinel ++ mid ++ drop (Z.to_nat b + length mid) sentinel.

(** The sizes [main] runs a mode with. *)
Definition run_by_main (mode : Mode) (size : Z) : Prop :=
  match mode with
  | Regular => size = 1 \/ size = 2 \/ size = 4
  | Swap => size = 2 \/ size = 4
  | Stswi => 1 <= size <= 32
  | Stswx => 0 <= size <= 32
  end.

(** * Properties *)

Ltac lia_mod := Z.div_mod_to_equations; lia.

(** ** The model on small inputs *)

Example sentinel_bytes :
  sentinel = [1; 2; 3; 4; 1; 2; 3; 4; 1; 2; 3; 4; 1; 2; 3; 4;
              1; 2; 3; 4; 1; 2; 3; 4; 1; 2; 3; 4; 1; 2; 3; 4].
Proof. reflexivity. Qed.

Example byte_store_at_offset_5 :
  WriteWithSimulatedQuirks 3 5 5 word 1
  = Some [stwx 0x56781234 0; stwx 0x56781234 4].
Proof. reflexivity. Qed.

Example aligned_word_store :
  WriteWithSimulatedQuirks 3 8 8 word 4 = Some [stwx word 8].
Proof. reflexivity. Qed.

Example unaligned_word_store_crosses_tiles :
  WriteWithSimulatedQuirks 3 7 7 word 4
  = Some [stwx 0x34567812 0; stwx 0x34567812 4;
          stwx 0x34567812 8; stwx 0x34567812 12].
Proof. reflexivity. Qed.

Example stswx_stores_its_count :
  read_bytes (mem (run (WriteStswx 0 STSW_VALUES 3 32) zero_machine)) 0 4
  = [0x10; 0x11; 0x12; 0].
Proof. reflexivity. Qed.

(** ** Bits of a rotated word *)

Lemma testbit_above32 (v k : Z) :
  0 <= v < 2 ^ 32 -> 32 <= k -> Z.testbit v k = false.
Proof.
  intros Hv Hk. rewrite <- (Z.mod_small v (2 ^ 32)) by lia.
  apply Z.mod_pow2_bits_high. lia.
Qed.

Lemma wrap32_range (x : Z) : 0 <= wrap32 x < 2 ^ 32.
Proof. unfold wrap32. apply Z.mod_pos_bound. lia. Qed.

Lemma testbit_wrap32 (x k : Z) : k < 32 -> Z.testbit (wrap32 x) k = Z.testbit x k.
Proof. intros. unfold wrap32. apply Z.mod_pow2_bits_low. lia. Qed.

Lemma testbit_RotateRight (v amount k : Z) :
  0 <= v < 2 ^ 32 -> 0 <= k < 32 ->
  Z.testbit (Common.RotateRight v amount) k = Z.testbit v ((k + amount) mod 32).
Proof.
  intros Hv Hk. unfold Common.RotateRight. cbv zeta.
  rewrite testbit_wrap32, Z.lor_spec, Z.shiftr_spec, Z.shiftl_spec by lia.
  rewrite <- (Z.add_mod_idemp_r k amount) by lia.
  pose proof (Z.mod_pos_bound amount 32 ltac:(lia)) as Ha.
  destruct (Z_lt_ge_dec (k + amount mod 32) 32) as [Hlt|Hge].
  - rewrite (Z.testbit_neg_r v (k - _)) by lia.
    rewrite orb_false_r, (Z.mod_small (k + _)) by lia. reflexivity.
  - rewrite (testbit_above32 v (k + _)) by lia. simpl.
    f_equal. lia_mod.
Qed.

Lemma testbit_RotateLeft (v amount k : Z) :
  0 <= v < 2 ^ 32 -> 0 <= k < 32 ->
  Z.testbit (Common.RotateLeft v amount) k = Z.testbit v ((k - amount) mod 32).
Proof.
  intros Hv Hk. unfold Common.RotateLeft. cbv zeta.
  rewrite testbit_wrap32, Z.lor_spec, Z.shiftr_spec, Z.shiftl_spec by lia.
  rewrite <- (Zminus_mod_idemp_r k amount).
  pose proof (Z.mod_pos_bound amount 32 ltac:(lia)) as Ha.
  destruct (Z_lt_ge_dec (k - amount mod 32) 0) as [Hlt|Hge].
  - rewrite (Z.testbit_neg_r v (k - _)) by lia. simpl.
    f_equal. lia_mod.
  - rewrite (testbit_above32 v (k + _)) by lia.
    rewrite orb_false_r, (Z.mod_small (k - _)) by lia. reflexivity.
Qed.

Lemma RotateRight_range v a : 0 <= Common.RotateRight v a < 2 ^ 32.
Proof. apply wrap32_range. Qed.

Lemma RotateLeft_range v a : 0 <= Common.RotateLeft v a < 2 ^ 32.
Proof. apply wrap32_range. Qed.

Lemma RotateLeft_RotateRight (v amount : Z) :
  0 <= v < 2 ^ 32 -> Common.RotateLeft (Common.RotateRight v amount) amount = v.
Proof.
  intros Hv. apply Z.bits_inj'. intros k Hk.
  destruct (Z_lt_ge_dec k 32) as [Hlt|Hge].
  - rewrite testbit_RotateLeft by (auto using RotateRight_range; lia).
    rewrite testbit_RotateRight by (auto; apply Z.mod_pos_bound; lia).
    rewrite Z.add_mod_idemp_l by lia. f_equal.
    replace (k - amount + amount) with k by lia. apply Z.mod_small. lia.
  - rewrite (testbit_above32 v k), (testbit_above32 (Common.RotateLeft _ _) k);
      auto using RotateLeft_range; lia.
Qed.

Lemma testbit_byte_of (v j i : Z) :
  0 <= i -> 0 <= j ->
  Z.testbit (byte_of v j) i = Z.testbit v (i + 8 * j) && (i <? 8).
Proof.
  intros Hi Hj. unfold byte_of.
  rewrite Z.land_spec, Z.shiftr_spec by lia.
  change 255 with (Z.ones 8). rewrite Z.testbit_ones_nonneg by lia. reflexivity.
Qed.

Lemma byte_of_RotateRight (v r j : Z) :
  0 <= v < 2 ^ 32 -> 0 <= j < 4 ->
  byte_of (Common.RotateRight v (8 * r)) j = byte_of v ((j + r) mod 4).
Proof.
  intros Hv Hj. apply Z.bits_inj'. intros i Hi.
  pose proof (Z.mod_pos_bound (j + r) 4 ltac:(lia)).
  rewrite !testbit_byte_of by lia.
  destruct (Z.ltb_spec i 8); [|by rewrite !andb_false_r].
  rewrite !andb_true_r, testbit_RotateRight by lia. f_equal. lia_mod.
Qed.

(** ** Stores and the memory they leave *)

Lemma store_bytes_spec (bs : list Z) : forall (m : Z -> Z) (e a : Z),
  store_bytes m e bs a = default (m a) (overlay bs e a).
Proof.
  induction bs as [|b bs IH]; intros m e a; simpl.
  - unfold overlay. case_decide; reflexivity.
  - rewrite IH. unfold overlay.
    destruct (Z.lt_trichotomy a e) as [Hlt|[->|Hgt]].
    + rewrite !decide_False by lia. simpl. apply fn_lookup_insert_ne. lia.
    + rewrite decide_False, decide_True by lia. simpl.
      replace (e - e) with 0 by lia. simpl. apply fn_lookup_insert.
    + rewrite !decide_True by lia.
      replace (Z.to_nat (a - e)) with (S (Z.to_nat (a - (e + 1)))) by lia.
      simpl. destruct (bs !! _); simpl; [reflexivity|].
      apply fn_lookup_insert_ne. lia.
Qed.

Lemma store_bytes_app (l1 l2 : list Z) : forall (m : Z -> Z) (e : Z),
  store_bytes m e (l1 ++ l2)
  = store_bytes (store_bytes m e l1) (e + Z.of_nat (length l1)) l2.
Proof.
  induction l1 as [|b l1 IH]; intros m e; simpl.
  - f_equal. lia.
  - rewrite IH. f_equal. lia.
Qed.

Lemma run_app (p q : list insn) (s : machine) : run (p ++ q) s = run q (run p s).
Proof. apply fold_left_app. Qed.

Lemma run_cons (i : insn) (p : list insn) (s : machine) :
  run (i :: p) s = run p (exec i s).
Proof. reflexivity. Qed.

Lemma read_bytes_lookup (m : Z -> Z) (e len : Z) (k : nat) :
  Z.of_nat k < len -> read_bytes m e len !! k = Some (m (e + Z.of_nat k)).
Proof.
  intros. unfold read_bytes.
  rewrite list_lookup_fmap, lookup_seqZ_lt by lia. reflexivity.
Qed.

Lemma length_read_bytes (m : Z -> Z) (e len : Z) :
  length (read_bytes m e len) = Z.to_nat len.
Proof. unfold read_bytes. rewrite length_fmap. apply length_seqZ. Qed.

(** Reading back a window after two stores into it. *)
Lemma read_bytes_overlay (m : Z -> Z) (rb b : Z) (bg mid : list Z) :
  0 <= b -> b + Z.of_nat (length mid) <= Z.of_nat (length bg) ->
  read_bytes (store_bytes (store_bytes m rb bg) (rb + b) mid) rb
    (Z.of_nat (length bg))
  = take (Z.to_nat b) bg ++ mid ++ drop (Z.to_nat b + length mid) bg.
Proof.
  intros Hb Hlen. apply list_eq. intros k.
  destruct (decide (k < length bg)%nat) as [Hk|Hk].
  - rewrite read_bytes_lookup by lia. rewrite !store_bytes_spec. unfold overlay.
    rewrite (decide_True (P := rb <= _)) by lia.
    replace (Z.to_nat (rb + Z.of_nat k - rb)) with k by lia.
    destruct (decide (k < Z.to_nat b)%nat) as [H1|H1].
    + rewrite decide_False by lia. simpl.
      rewrite lookup_app_l by (rewrite length_take; lia).
      rewrite lookup_take_lt by lia.
      destruct (lookup_lt_is_Some_2 bg k Hk) as [x ->]. reflexivity.
    + rewrite decide_True by lia.
      rewrite lookup_app_r by (rewrite length_take; lia).
      rewrite length_take, Nat.min_l by lia.
      replace (Z.to_nat (rb + Z.of_nat k - (rb + b))) with (k - Z.to_nat b)%nat
        by lia.
      destruct (decide (k - Z.to_nat b < length mid)%nat) as [H2|H2].
      * rewrite lookup_app_l by lia.
        destruct (lookup_lt_is_Some_2 mid _ H2) as [x ->]. reflexivity.
      * rewrite lookup_app_r by lia. rewrite lookup_drop.
        rewrite (lookup_ge_None_2 mid) by lia. simpl.
        replace (Z.to_nat b + length mid + (k - Z.to_nat b - length mid))%nat
          with k by lia.
        destruct (lookup_lt_is_Some_2 bg k Hk) as [x ->]. reflexivity.
  - rewrite lookup_ge_None_2 by (rewrite length_read_bytes; lia).
    symmetry. apply lookup_ge_None_2.
    rewrite !length_app, length_take, length_drop. lia.
Qed.

(** ** Tiles *)

Lemma tile_nil (base n v : Z) : n <= 0 -> tile base n v = [].
Proof. intros. unfold tile. rewrite seqZ_nil by lia. reflexivity. Qed.

Lemma tile_cons (base n v : Z) :
  0 < n -> tile base n v = stwx v base :: tile (base + 4) (n - 1) v.
Proof.
  intros Hn. unfold tile. rewrite seqZ_cons by lia. simpl. f_equal.
  - f_equal. lia.
  - replace (Z.succ 0) with (1 + 0) by lia.
    rewrite <- fmap_add_seqZ, <- list_fmap_compose.
    replace (Z.pred n) with (n - 1) by lia.
    apply list_fmap_ext. intros _ k _. simpl. f_equal. lia.
Qed.

Lemma mem_run_tile (v : Z) (n : nat) : forall (base : Z) (s : machine),
  mem (run (tile base (Z.of_nat n) v) s)
  = store_bytes (mem s) base (word_image n v).
Proof.
  induction n as [|n IH]; intros base s.
  - reflexivity.
  - rewrite tile_cons by lia. rewrite run_cons.
    replace (Z.of_nat (S n) - 1) with (Z.of_nat n) by lia.
    rewrite IH. change (word_image (S n) v) with (be_bytes v 4 ++ word_image n v).
    rewrite store_bytes_app. reflexivity.
Qed.

Lemma std_fill_tile (v : Z) (n : nat) : forall first : Z,
  std_fill first n v = tile first (Z.of_nat n) v.
Proof.
  induction n as [|n IH]; intros first.
  - reflexivity.
  - rewrite tile_cons by lia. simpl. rewrite IH. do 2 f_equal. lia.
Qed.

Lemma length_word_image (n : nat) (v : Z) : length (word_image n v) = (4 * n)%nat.
Proof.
  induction n as [|n IH]; [reflexivity|].
  change (word_image (S n) v) with (be_bytes v 4 ++ word_image n v).
  rewrite length_app, IH. change (length (be_bytes v 4)) with 4%nat. lia.
Qed.

Lemma lookup_word_image (v : Z) (n : nat) : forall k : nat,
  (k < 4 * n)%nat ->
  word_image n v !! k = Some (byte_of v (3 - Z.of_nat k mod 4)).
Proof.
  induction n as [|n IH]; intros k Hk; [lia|].
  change (word_image (S n) v) with (be_bytes v 4 ++ word_image n v).
  assert (length (be_bytes v 4) = 4%nat) as Hlen by reflexivity.
  destruct (decide (k < 4)%nat) as [Hlt|Hge].
  - rewrite lookup_app_l by lia.
    do 4 (destruct k as [|k]; [reflexivity|]). lia.
  - rewrite lookup_app_r, Hlen by lia. rewrite IH by lia.
    do 2 f_equal. lia_mod.
Qed.

Lemma quirk_loop_tile (count base v : Z) :
  count + 7 < 2 ^ 32 ->
  forall (fuel : nat) (i : Z),
    0 <= i ->
    (Z.to_nat ((count - i + 7) / 8) < fuel)%nat ->
    quirk_loop fuel i count base v
    = Some (tile (base + i) (2 * ((count - i + 7) / 8)) v).
Proof.
  intros Hcount. induction fuel as [|fuel IH]; intros i Hi Hfuel; [lia|].
  simpl. destruct (Z.ltb_spec i count) as [Hlt|Hge].
  - unfold wrap32. rewrite Z.mod_small by lia.
    assert ((count - (i + 8) + 7) / 8 = (count - i + 7) / 8 - 1) as E by lia_mod.
    assert (1 <= (count - i + 7) / 8) by lia_mod.
    rewrite IH by lia. simpl. f_equal.
    rewrite (tile_cons (base + i)) by lia.
    rewrite (tile_cons (base + i + 4)) by lia.
    rewrite E. do 2 f_equal. f_equal; lia.
  - rewrite tile_nil by lia_mod. reflexivity.
Qed.

(** ** The reference store *)

Lemma land_3 (a : Z) : Z.land a 3 = a mod 4.
Proof. apply (Z.land_ones a 2). lia. Qed.

Lemma land_7 (a : Z) : Z.land a 7 = a mod 8.
Proof. apply (Z.land_ones a 3). lia. Qed.

Lemma land_31 (a : Z) : Z.land a 31 = a mod 32.
Proof. apply (Z.land_ones a 5). lia. Qed.

Lemma RotateRight_wrap32 (v amount : Z) :
  Common.RotateRight v (wrap32 amount) = Common.RotateRight v amount.
Proof.
  unfold Common.RotateRight, wrap32.
  replace ((amount mod 2 ^ 32) mod 32) with (amount mod 32); [reflexivity|].
  change (2 ^ 32) with 4294967296. lia_mod.
Qed.

Lemma takes_quirk_path_true (alignment size : Z) :
  takes_quirk_path alignment size = true <-> alignment mod 4 <> 0 \/ size < 4.
Proof.
  unfold takes_quirk_path. rewrite land_3, orb_true_iff, negb_true_iff.
  rewrite Z.eqb_neq, Z.ltb_lt. reflexivity.
Qed.

Lemma takes_quirk_path_false (alignment size : Z) :
  takes_quirk_path alignment size = false <-> alignment mod 4 = 0 /\ 4 <= size.
Proof.
  unfold takes_quirk_path. rewrite land_3, orb_false_iff, negb_false_iff.
  rewrite Z.eqb_eq, Z.ltb_ge. reflexivity.
Qed.

(** On the quirk path the model is one tile of the rotated word. *)
Lemma quirk_path_tile (fuel : nat) (alignment ptr value size : Z) :
  0 <= size -> alignment mod 8 + size + 7 < 2 ^ 32 ->
  takes_quirk_path alignment size = true ->
  (Z.to_nat ((alignment mod 8 + size + 7) / 8) < fuel)%nat ->
  WriteWithSimulatedQuirks fuel alignment ptr value size
  = Some (tile (ptr - alignment mod 8)
               (round_up_8 (alignment mod 8 + size) / 4)
               (Common.RotateRight value ((alignment mod 4 + size) * 8))).
Proof.
  intros Hsize Hsmall Hpath Hfuel. unfold WriteWithSimulatedQuirks.
  rewrite Hpath. cbv zeta. rewrite RotateRight_wrap32, land_3, land_7.
  pose proof (Z.mod_pos_bound alignment 8 ltac:(lia)).
  unfold wrap32 at 1. rewrite Z.mod_small by lia.
  rewrite quirk_loop_tile by (rewrite ?Z.sub_0_r; lia).
  rewrite Z.sub_0_r, Z.add_0_r. do 2 f_equal.
  unfold round_up_8. lia_mod.
Qed.

(** Off the quirk path it is the store itself. *)
Lemma fast_path_store (fuel : nat) (alignment ptr value size : Z) :
  takes_quirk_path alignment size = false ->
  WriteWithSimulatedQuirks fuel alignment ptr value size
  = Some (Write ptr value size false).
Proof. intros Hpath. unfold WriteWithSimulatedQuirks. rewrite Hpath. reflexivity. Qed.

Lemma length_tile (base n v : Z) : length (tile base n v) = Z.to_nat n.
Proof. unfold tile. rewrite length_fmap. apply length_seqZ. Qed.

Lemma read_bytes_store_bytes (m : Z -> Z) (e : Z) (bs : list Z) :
  read_bytes (store_bytes m e bs) e (Z.of_nat (length bs)) = bs.
Proof.
  apply list_eq. intros k.
  destruct (decide (k < length bs)%nat) as [Hk|Hk].
  - rewrite read_bytes_lookup, store_bytes_spec by lia. unfold overlay.
    rewrite decide_True by lia.
    replace (Z.to_nat (e + Z.of_nat k - e)) with k by lia.
    destruct (lookup_lt_is_Some_2 bs k Hk) as [x ->]. reflexivity.
  - rewrite lookup_ge_None_2 by (rewrite length_read_bytes; lia).
    symmetry. apply lookup_ge_None_2. lia.
Qed.

Lemma mem_run_Write (ptr value size : Z) (s : machine) :
  size = 1 \/ size = 2 \/ size = 4 ->
  mem (run (Write ptr value size false) s)
  = store_bytes (mem s) ptr (be_bytes value size).
Proof. intros [->|[->| ->]]; reflexivity. Qed.

Lemma length_be_bytes (v size : Z) : length (be_bytes v size) = Z.to_nat size.
Proof. unfold be_bytes. rewrite length_fmap. apply length_seqZ. Qed.

(** The bytes a tile of the rotated word leaves at the target. *)
Lemma tile_reassembles (m : Z -> Z) (i buf value size : Z) (n : nat) :
  size = 1 \/ size = 2 \/ size = 4 -> 0 <= value < 2 ^ 32 ->
  i mod 8 + size <= 4 * Z.of_nat n ->
  read_bytes
    (store_bytes m (buf + i - i mod 8)
       (word_image n (Common.RotateRight value ((i mod 4 + size) * 8))))
    (buf + i) size
  = be_bytes value size.
Proof.
  intros Hsize Hvalue Hn. unfold read_bytes, be_bytes.
  replace (buf + i) with (buf + i + 0) at 2 by lia.
  rewrite <- fmap_add_seqZ, <- list_fmap_compose.
  apply list_fmap_ext. intros j k [-> Hj]%lookup_seqZ. simpl.
  pose proof (Z.mod_pos_bound i 8 ltac:(lia)).
  rewrite store_bytes_spec. unfold overlay. rewrite decide_True by lia.
  rewrite lookup_word_image by lia. simpl.
  replace ((i mod 4 + size) * 8) with (8 * (i mod 4 + size)) by lia.
  rewrite byte_of_RotateRight by (try assumption; lia_mod).
  f_equal. rewrite Z2Nat.id by lia. lia_mod.
Qed.

Lemma length_le_bytes (v size : Z) : length (le_bytes v size) = Z.to_nat size.
Proof. unfold le_bytes. rewrite length_fmap. apply length_seqZ. Qed.

Lemma overlay_outside (bs : list Z) (e a : Z) :
  ~ (e <= a < e + Z.of_nat (length bs)) -> overlay bs e a = None.
Proof.
  intros Hout. unfold overlay. case_decide; [|reflexivity].
  apply lookup_ge_None_2. lia.
Qed.

(** A store leaves the bytes outside its footprint alone. *)
Lemma within_exec (lo hi : Z) (ins : insn) (s : machine) (a : Z) :
  within lo hi ins -> ~ (lo <= a < hi) -> mem (exec ins s) a = mem s a.
Proof.
  intros Hin Hout.
  destruct ins; unfold within in Hin; cbn [footprint] in Hin; try contradiction;
    cbn [exec mem];
    rewrite store_bytes_spec, overlay_outside; try reflexivity;
    rewrite ?length_be_bytes, ?length_le_bytes; lia.
Qed.

Lemma within_run (lo hi : Z) (p : list insn) :
  Forall (within lo hi) p ->
  forall (s : machine) (a : Z), ~ (lo <= a < hi) -> mem (run p s) a = mem s a.
Proof.
  induction 1 as [|ins p Hins _ IH]; intros s a Hout; [reflexivity|].
  rewrite run_cons, IH by assumption. eapply within_exec; eassumption.
Qed.

Lemma within_tile (lo hi base n v : Z) :
  lo <= base -> base + 4 * n <= hi -> Forall (within lo hi) (tile base n v).
Proof.
  intros Hlo Hhi. unfold tile. rewrite Forall_fmap. apply Forall_seqZ.
  intros k Hk. simpl. unfold within. simpl. lia.
Qed.

Lemma within_Write (lo hi ptr value size : Z) :
  lo <= ptr -> ptr + size <= hi ->
  Forall (within lo hi) (Write ptr value size false).
Proof.
  intros Hlo Hhi. unfold Write.
  repeat case_match; repeat constructor; unfold within; simpl; lia.
Qed.

(** * The claims *)

(** C1. For a store on memory that is not cache-backed whose offset is not
    4-byte aligned or whose size is below 4, [WriteWithSimulatedQuirks]
    rotates the value right by [(alignment mod 4 + size) * 8] bits and issues
    that word as consecutive 4-byte stores; the first one is at
    [ptr - alignment mod 8], which is 8-byte aligned as an offset, and
    together they cover [alignment mod 8 + size] bytes rounded up to a
    multiple of 8. *)
Theorem quirk_store_rotates_then_tiles (fuel : nat) (alignment ptr value size : Z) :
  0 <= size -> alignment mod 8 + size + 7 < 2 ^ 32 ->
  alignment mod 4 <> 0 \/ size < 4 ->
  (Z.to_nat ((alignment mod 8 + size + 7) / 8) < fuel)%nat ->
  WriteWithSimulatedQuirks fuel alignment ptr value size
  = Some (tile (ptr - alignment mod 8)
               (round_up_8 (alignment mod 8 + size) / 4)
               (Common.RotateRight value ((alignment mod 4 + size) * 8)))
  /\ (alignment - alignment mod 8) mod 8 = 0
  /\ 4 * (round_up_8 (alignment mod 8 + size) / 4)
     = round_up_8 (alignment mod 8 + size).
Proof.
  intros Hsize Hsmall Hquirk Hfuel. split; [|split].
  - apply quirk_path_tile; try assumption.
    apply takes_quirk_path_true. assumption.
  - lia_mod.
  - unfold round_up_8. lia_mod.
Qed.

Lemma quirk_store_rotates_then_tiles_witness :
  WriteWithSimulatedQuirks 3 1 41 0x12347856 2
  = Some (tile (41 - 1 mod 8) (round_up_8 (1 mod 8 + 2) / 4)
               (Common.RotateRight 0x12347856 ((1 mod 4 + 2) * 8)))
  /\ (1 - 1 mod 8) mod 8 = 0
  /\ 4 * (round_up_8 (1 mod 8 + 2) / 4) = round_up_8 (1 mod 8 + 2).
Proof.
  apply (quirk_store_rotates_then_tiles 3 1 41 0x12347856 2).
  - lia.
  - reflexivity.
  - right. lia.
  - vm_compute. lia.
Defined.

(** C2. For a size of 1, 2 or 4, any offset [i] and any 32-bit value, after
    [WriteWithSimulatedQuirks(i, buf + i, value, size)] the [size] bytes at
    [buf + i] are the low [size] bytes of the value in big-endian order,
    which are the bytes an ordinary store of that size puts there. *)
Theorem quirk_store_reassembles (fuel : nat) (i buf value size : Z) (s : machine) :
  size = 1 \/ size = 2 \/ size = 4 -> 0 <= value < 2 ^ 32 -> (3 <= fuel)%nat ->
  exists p : list insn,
    WriteWithSimulatedQuirks fuel i (buf + i) value size = Some p
    /\ read_bytes (mem (run p s)) (buf + i) size = be_bytes value size
    /\ read_bytes (mem (run (Write (buf + i) value size false) s)) (buf + i) size
       = be_bytes value size.
Proof.
  intros Hsize Hvalue Hfuel.
  pose proof (Z.mod_pos_bound i 8 ltac:(lia)) as Hi.
  assert (read_bytes (mem (run (Write (buf + i) value size false) s)) (buf + i) size
          = be_bytes value size) as Hplain.
  { rewrite mem_run_Write by assumption.
    replace size with (Z.of_nat (length (be_bytes value size))) at 2
      by (rewrite length_be_bytes; lia).
    apply read_bytes_store_bytes. }
  destruct (takes_quirk_path i size) eqn:Hpath.
  - eexists. split; [|split; [|exact Hplain]].
    + apply quirk_path_tile; try assumption; try lia.
      assert ((i mod 8 + size + 7) / 8 <= 2) by lia_mod. lia.
    + assert (0 <= round_up_8 (i mod 8 + size) / 4) as Hn
        by (unfold round_up_8; lia_mod).
      rewrite <- (Z2Nat.id _ Hn), mem_run_tile.
      apply tile_reassembles; try assumption.
      rewrite Z2Nat.id by assumption. unfold round_up_8. lia_mod.
  - exists (Write (buf + i) value size false).
    split; [|split; exact Hplain].
    apply fast_path_store. assumption.
Qed.

Lemma quirk_store_reassembles_witness :
  exists p : list insn,
    WriteWithSimulatedQuirks 3 1 (40 + 1) 0x12347856 2 = Some p
    /\ read_bytes (mem (run p zero_machine)) (40 + 1) 2 = be_bytes 0x12347856 2
    /\ read_bytes (mem (run (Write (40 + 1) 0x12347856 2 false) zero_machine)) (40 + 1) 2
       = be_bytes 0x12347856 2.
Proof.
  apply (quirk_store_reassembles 3 1 40 0x12347856 2 zero_machine).
  - right. left. reflexivity.
  - lia.
  - lia.
Defined.

(** C6. With a size below 4 the model takes the rotate-and-tile path whatever
    the alignment is, also for an aligned offset; for the sizes 1, 2 and 4
    the single direct store is issued exactly when the offset is 4-byte
    aligned and the size is 4. *)
Theorem narrow_store_takes_quirk_path (fuel : nat) (alignment ptr value size : Z) :
  size = 1 \/ size = 2 \/ size = 4 -> (3 <= fuel)%nat ->
  (size < 4 ->
     takes_quirk_path alignment size = true
     /\ WriteWithSimulatedQuirks fuel alignment ptr value size
        = Some (tile (ptr - alignment mod 8)
                     (round_up_8 (alignment mod 8 + size) / 4)
                     (Common.RotateRight value ((alignment mod 4 + size) * 8))))
  /\ (takes_quirk_path alignment size = false <-> alignment mod 4 = 0 /\ size = 4)
  /\ (WriteWithSimulatedQuirks fuel alignment ptr value size
      = Some (Write ptr value size false)
      <-> alignment mod 4 = 0 /\ size = 4).
Proof.
  intros Hsize Hfuel.
  pose proof (Z.mod_pos_bound alignment 8 ltac:(lia)) as Ha.
  assert ((alignment mod 8 + size + 7) / 8 <= 2) as Hiter by lia_mod.
  assert (takes_quirk_path alignment size = false <-> alignment mod 4 = 0 /\ size = 4)
    as Hfast by (rewrite takes_quirk_path_false; lia).
  split; [|split; [exact Hfast|]].
  - intros Hlt.
    assert (takes_quirk_path alignment size = true) as Hpath
      by (apply takes_quirk_path_true; lia).
    split; [exact Hpath|]. apply quirk_path_tile; lia || assumption.
  - split.
    + intros Heq. apply Hfast.
      destruct (takes_quirk_path alignment size) eqn:Hpath; [|reflexivity].
      rewrite quirk_path_tile in Heq by (lia || assumption).
      apply (f_equal (fmap (M := option) length)) in Heq. simpl in Heq.
      rewrite length_tile in Heq.
      assert (2 <= round_up_8 (alignment mod 8 + size) / 4)
        by (unfold round_up_8; lia_mod).
      assert (length (Write ptr value size false) = 1%nat)
        by (destruct Hsize as [->|[->| ->]]; reflexivity).
      injection Heq as Heq. lia.
    + intros Hal. apply fast_path_store, Hfast, Hal.
Qed.

Lemma narrow_store_takes_quirk_path_witness :
  (2 < 4 ->
     takes_quirk_path 8 2 = true
     /\ WriteWithSimulatedQuirks 3 8 48 0x12345678 2
        = Some (tile (48 - 8 mod 8) (round_up_8 (8 mod 8 + 2) / 4)
                     (Common.RotateRight 0x12345678 ((8 mod 4 + 2) * 8))))
  /\ (takes_quirk_path 8 2 = false <-> 8 mod 4 = 0 /\ 2 = 4)
  /\ (WriteWithSimulatedQuirks 3 8 48 0x12345678 2
      = Some (Write 48 0x12345678 2 false)
      <-> 8 mod 4 = 0 /\ 2 = 4).
Proof.
  apply (narrow_store_takes_quirk_path 3 8 48 0x12345678 2).
  - right. left. reflexivity.
  - lia.
Defined.

(** C9. For a size of 1, 2 or 4 and any offset, rotating a 32-bit pattern
    right by [(offset mod 4 + size) * 8] bits and then left by the same
    amount gives the pattern back. *)
Theorem rotation_round_trip (pattern offset size : Z) :
  0 <= pattern < 2 ^ 32 -> size = 1 \/ size = 2 \/ size = 4 ->
  Common.RotateLeft
    (Common.RotateRight pattern ((offset mod 4 + size) * 8))
    ((offset mod 4 + size) * 8)
  = pattern.
Proof. intros Hpattern _. apply RotateLeft_RotateRight. assumption. Qed.

Lemma rotation_round_trip_witness :
  Common.RotateLeft (Common.RotateRight word ((1 mod 4 + 2) * 8)) ((1 mod 4 + 2) * 8)
  = word.
Proof.
  apply (rotation_round_trip word 1 2).
  - unfold word. lia.
  - right. left. reflexivity.
Defined.

(** C10. For a size of 1, 2 or 4 and an offset [i] with
    [0 <= i <= 32 - size], every store that
    [WriteWithSimulatedQuirks(i, buf + i, value, size)] issues lies within
    the 32 bytes at [buf], and no byte outside them changes; the tile starts
    at offset [i - i mod 8], which is not negative, and ends at or before
    offset 32. *)
Theorem model_stays_in_reference_buffer (fuel : nat) (i buf value size : Z) :
  size = 1 \/ size = 2 \/ size = 4 -> 0 <= i <= 32 - size -> (3 <= fuel)%nat ->
  exists p : list insn,
    WriteWithSimulatedQuirks fuel i (buf + i) value size = Some p
    /\ Forall (within buf (buf + 32)) p
    /\ (forall (s : machine) (a : Z),
          ~ (buf <= a < buf + 32) -> mem (run p s) a = mem s a)
    /\ 0 <= i - i mod 8
    /\ i - i mod 8 + round_up_8 (i mod 8 + size) <= 32.
Proof.
  intros Hsize Hi Hfuel.
  pose proof (Z.mod_pos_bound i 8 ltac:(lia)) as Hi8.
  assert (exists p, WriteWithSimulatedQuirks fuel i (buf + i) value size = Some p
                    /\ Forall (within buf (buf + 32)) p) as (p & Hp & Hin).
  { destruct (takes_quirk_path i size) eqn:Hpath.
    - eexists. split.
      + apply quirk_path_tile; try assumption; try lia.
        assert ((i mod 8 + size + 7) / 8 <= 2) by lia_mod. lia.
      + apply within_tile; unfold round_up_8; lia_mod.
    - eexists. split; [apply fast_path_store; assumption|].
      apply within_Write; lia. }
  exists p. split; [exact Hp|]. split; [exact Hin|].
  split; [apply within_run; exact Hin|].
  unfold round_up_8. split; lia_mod.
Qed.

Lemma model_stays_in_reference_buffer_witness :
  exists p : list insn,
    WriteWithSimulatedQuirks 3 30 (40 + 30) 0x12347856 2 = Some p
    /\ Forall (within 40 (40 + 32)) p
    /\ (forall (s : machine) (a : Z),
          ~ (40 <= a < 40 + 32) -> mem (run p s) a = mem s a)
    /\ 0 <= 30 - 30 mod 8
    /\ 30 - 30 mod 8 + round_up_8 (30 mod 8 + 2) <= 32.
Proof.
  apply (model_stays_in_reference_buffer 3 30 40 0x12347856 2).
  - right. left. reflexivity.
  - lia.
  - lia.
Defined.

(** ** The sweep *)

Lemma stswi_table_lookup (k : nat) :
  (k < 32)%nat -> stswi_table !! k = Some (WriteStswiImpl (Z.of_nat k)).
Proof. intros Hk. do 32 (destruct k as [|k]; [reflexivity|]). lia. Qed.

Lemma WriteStswi_dispatch (out_ptr : Z) (in_ptr : list Z) (out_size in_size : Z) :
  WriteStswi out_ptr in_ptr out_size in_size
  = Some (WriteStswiImpl (out_size mod 32) out_ptr in_ptr in_size).
Proof.
  unfold WriteStswi. rewrite land_31.
  pose proof (Z.mod_pos_bound out_size 32 ltac:(lia)).
  rewrite stswi_table_lookup by lia. simpl. rewrite Z2Nat.id by lia. reflexivity.
Qed.

Lemma WriteWithSimulatedQuirks_total (fuel : nat) (alignment ptr value size : Z) :
  0 <= size <= 32 -> (6 <= fuel)%nat ->
  is_Some (WriteWithSimulatedQuirks fuel alignment ptr value size).
Proof.
  intros Hsize Hfuel.
  pose proof (Z.mod_pos_bound alignment 8 ltac:(lia)).
  destruct (takes_quirk_path alignment size) eqn:Hpath.
  - rewrite quirk_path_tile; [eexists; reflexivity|lia|lia|assumption|].
    assert ((alignment mod 8 + size + 7) / 8 <= 5) by lia_mod. lia.
  - rewrite fast_path_store by assumption. eexists; reflexivity.
Qed.

Lemma mem_run_std_copy (n : nat) : forall (src : list Z) (out : Z) (s : machine),
  mem (run (std_copy src n out) s)
  = store_bytes (mem s) out ((fun b => byte_of b 0) <$> take n src).
Proof.
  induction n as [|n IH]; intros src out s; [reflexivity|].
  destruct src as [|b src]; [reflexivity|].
  simpl std_copy. rewrite run_cons, IH. reflexivity.
Qed.

Section SweepFacts.

Variable processor : list insn -> hw_result.
Variable reference_buffer : Z.
Variable fuel : nat.
Variables (ptr size : Z) (cached_memory : bool) (mode : Mode).

Lemma stores_at_total (i : Z) :
  0 <= size <= 32 -> (6 <= fuel)%nat ->
  is_Some (stores_at reference_buffer fuel ptr size cached_memory mode i).
Proof.
  intros Hsize Hfuel. unfold stores_at.
  destruct (stsw mode).
  - destruct mode; rewrite ?WriteStswi_dispatch; eexists; reflexivity.
  - destruct cached_memory; [eexists; reflexivity|].
    destruct (WriteWithSimulatedQuirks_total fuel i (reference_buffer + i)
                (swapped_word mode size) size Hsize Hfuel) as [p ->].
    eexists; reflexivity.
Qed.

(** What an iteration records. *)
Lemma trial_at_inv (i : Z) (s s' : machine) (t : trial) :
  trial_at processor reference_buffer fuel ptr size cached_memory mode i s
  = Some (t, s') ->
  exists tested simulated : list insn,
    stores_at reference_buffer fuel ptr size cached_memory mode i
    = Some (tested, simulated)
    /\ offset t = i
    /\ expected t
       = read_bytes
           (mem (run (std_fill reference_buffer 8 fill_word ++ simulated) s))
           reference_buffer 32
    /\ pi_error_expected t = negb cached_memory && negb (stsw mode).
Proof.
  unfold trial_at. intros Ht.
  destruct (stores_at _ _ _ _ _ _ _) as [[tested simulated]|]; [|discriminate].
  simpl in Ht. injection Ht as <- <-.
  exists tested, simulated. repeat split.
Qed.

Lemma trial_at_total (i : Z) (s : machine) :
  0 <= size <= 32 -> (6 <= fuel)%nat ->
  exists (t : trial) (s' : machine),
    trial_at processor reference_buffer fuel ptr size cached_memory mode i s
    = Some (t, s')
    /\ offset t = i.
Proof.
  intros Hsize Hfuel. unfold trial_at.
  destruct (stores_at_total i Hsize Hfuel) as [[tested simulated] ->].
  simpl. eexists _, _. split; reflexivity.
Qed.

(** The loop visits the offsets in order, one trial each, whatever the
    trials record. *)
Lemma sweep_loop_offsets :
  0 <= size <= 32 -> (6 <= fuel)%nat ->
  forall (steps : nat) (i : Z) (s : machine),
    0 <= i <= 33 - size ->
    (Z.to_nat (33 - size - i) < steps)%nat ->
    exists trials : list trial,
      sweep_loop processor reference_buffer fuel ptr size cached_memory mode
        steps i s
      = Some trials
      /\ offset <$> trials = seqZ i (33 - size - i)
      /\ Forall (fun t =>
                   i <= offset t <= 32 - size
                   /\ recorded processor reference_buffer fuel ptr size
                        cached_memory mode t)
           trials.
Proof.
  intros Hsize Hfuel.
  induction steps as [|steps IH]; intros i s Hi Hsteps; [lia|].
  simpl. unfold wrap32. rewrite (Z.mod_small (32 - size)) by lia.
  destruct (Z.leb_spec i (32 - size)) as [Hle|Hgt].
  - destruct (trial_at_total i s Hsize Hfuel) as (t & s' & Ht & Hoff).
    rewrite Ht. simpl. rewrite Z.mod_small by lia.
    destruct (IH (i + 1) s' ltac:(lia) ltac:(lia)) as (rest & -> & Hoffs & Hall).
    simpl. exists (t :: rest). split; [reflexivity|]. split.
    + rewrite fmap_cons, Hoffs, Hoff, (seqZ_cons i) by lia.
      do 2 f_equal; lia.
    + constructor.
      * split; [lia|]. exists s, s'. rewrite Hoff. exact Ht.
      * eapply Forall_impl; [exact Hall|]. simpl.
        intros t' [Hb Ht']. split; [lia|exact Ht'].
  - exists []. split; [reflexivity|]. split; [|constructor].
    rewrite seqZ_nil by lia. reflexivity.
Qed.

Lemma UnalignedStoresTest_trials (s : machine) :
  0 <= size <= 32 -> (34 <= fuel)%nat ->
  exists trials : list trial,
    UnalignedStoresTest processor reference_buffer fuel ptr size cached_memory mode s
    = Some trials
    /\ offset <$> trials = seqZ 0 (33 - size)
    /\ Forall (fun t =>
                 0 <= offset t <= 32 - size
                 /\ recorded processor reference_buffer fuel ptr size
                      cached_memory mode t)
         trials.
Proof.
  intros Hsize Hfuel. unfold UnalignedStoresTest.
  destruct (sweep_loop_offsets Hsize ltac:(lia) fuel 0 s ltac:(lia) ltac:(lia))
    as (trials & Hrun & Hoffs & Hall).
  exists trials. rewrite Z.sub_0_r in Hoffs. auto.
Qed.

End SweepFacts.

Lemma string_registers (g : Z -> Z) :
  string_byte (load_string g 24 STSW_VALUES (xer_count (wrap32 32))) 24 <$> seqZ 0 32
  = STSW_VALUES.
Proof. vm_compute. reflexivity. Qed.

Lemma sentinel_length : Z.of_nat (length sentinel) = 32.
Proof. reflexivity. Qed.

(** The reference window after the fill and a model that writes [mid] at
    offset [b]. *)
Lemma window_after (s : machine) (rb b : Z) (p : list insn) (mid : list Z) :
  (forall s0, mem (run p s0) = store_bytes (mem s0) (rb + b) mid) ->
  0 <= b -> b + Z.of_nat (length mid) <= 32 ->
  read_bytes (mem (run (std_fill rb 8 fill_word ++ p) s)) rb 32
  = take (Z.to_nat b) sentinel ++ mid ++ drop (Z.to_nat b + length mid) sentinel.
Proof.
  intros Hp Hb Hlen.
  rewrite run_app, Hp, std_fill_tile, mem_run_tile.
  rewrite <- sentinel_length. apply read_bytes_overlay; [assumption|].
  rewrite sentinel_length. assumption.
Qed.

(** C3. In every trial of the sweep the expected fault outcome is true
    exactly when the memory is not cache-backed and the mode is Regular or
    Swap; the size and the offset play no part. *)
Theorem fault_expected_iff_uncached_plain_store
    (processor : list insn -> hw_result) (reference_buffer : Z) (fuel : nat)
    (ptr size : Z) (cached_memory : bool) (mode : Mode) (s : machine) :
  0 <= size <= 32 -> (34 <= fuel)%nat ->
  exists trials : list trial,
    UnalignedStoresTest processor reference_buffer fuel ptr size cached_memory mode s
    = Some trials
    /\ length trials = Z.to_nat (33 - size)
    /\ Forall (fun t => pi_error_expected t = true
                        <-> cached_memory = false /\ (mode = Regular \/ mode = Swap))
         trials.
Proof.
  intros Hsize Hfuel.
  destruct (UnalignedStoresTest_trials processor reference_buffer fuel ptr size
              cached_memory mode s Hsize Hfuel) as (trials & Hrun & Hoffs & Hall).
  exists trials. split; [exact Hrun|]. split.
  - rewrite <- (length_fmap offset), Hoffs. apply length_seqZ.
  - eapply Forall_impl; [exact Hall|]. simpl.
    intros t (_ & s0 & s1 & Ht).
    apply trial_at_inv in Ht as (_ & _ & _ & _ & _ & ->).
    destruct cached_memory, mode; simpl; intuition congruence.
Qed.

Lemma fault_expected_iff_uncached_plain_store_witness :
  exists trials : list trial,
    UnalignedStoresTest silent 40 34 100 4 false Regular zero_machine = Some trials
    /\ length trials = Z.to_nat (33 - 4)
    /\ Forall (fun t => pi_error_expected t = true
                        <-> false = false /\ (Regular = Regular \/ Regular = Swap))
         trials.
Proof.
  apply (fault_expected_iff_uncached_plain_store silent 40 34 100 4 false Regular
           zero_machine).
  - lia.
  - lia.
Defined.

(** C8. [WriteStswi] picks its implementation from the table by
    [out_size & 31], and the lookup never misses.  A count of 0 selects the
    form whose [stswi] has the count field 0, which stores 32 bytes, and a
    count of 32 selects that same form. *)
Theorem stswi_dispatch_by_table
    (out_ptr : Z) (in_ptr : list Z) (out_size in_size : Z) :
  WriteStswi out_ptr in_ptr out_size in_size
  = Some (WriteStswiImpl (out_size mod 32) out_ptr in_ptr in_size)
  /\ WriteStswi out_ptr in_ptr 0 in_size
     = Some [mtxer in_size; lswx 24 in_ptr; stswi 24 out_ptr 0]
  /\ WriteStswi out_ptr in_ptr 32 in_size = WriteStswi out_ptr in_ptr 0 in_size
  /\ stswi_nbytes 0 = 32
  /\ exists p : list insn,
       WriteStswi out_ptr STSW_VALUES 32 32 = Some p
       /\ WriteStswi out_ptr STSW_VALUES 0 32 = Some p
       /\ forall s : machine, read_bytes (mem (run p s)) out_ptr 32 = STSW_VALUES.
Proof.
  split; [apply WriteStswi_dispatch|].
  split; [reflexivity|]. split; [reflexivity|]. split; [reflexivity|].
  eexists. split; [reflexivity|]. split; [reflexivity|].
  intros s. unfold WriteStswiImpl, run. cbn [fold_left exec mem gpr xer].
  unfold store_string. cbn [mem gpr xer]. change (stswi_nbytes 0) with 32.
  rewrite string_registers. apply (read_bytes_store_bytes (mem s) out_ptr STSW_VALUES).
Qed.

(** C4, as the code has it.  In the trial with size 2, mode Swap, offset 1
    on memory that is not cache-backed, the model starts from the word
    0x12347856, the pattern 0x12345678 with only its low halfword
    byte-reversed, rotates it right by 24 bits to 0x34785612, tiles two
    words of it at offset 0, and expects a fault. *)
Theorem swapped_halfword_trial
    (processor : list insn -> hw_result) (reference_buffer : Z) (fuel : nat)
    (ptr : Z) (s : machine) :
  (34 <= fuel)%nat ->
  swapped_word Swap 2 = 0x12347856
  /\ (Z.land 1 3 + 2) * 8 = 24
  /\ Common.RotateRight (swapped_word Swap 2) 24 = 0x34785612
  /\ WriteWithSimulatedQuirks fuel 1 (reference_buffer + 1) (swapped_word Swap 2) 2
     = Some (tile reference_buffer 2 0x34785612)
  /\ exists (trials : list trial) (t : trial),
       UnalignedStoresTest processor reference_buffer fuel ptr 2 false Swap s
       = Some trials
       /\ trials !! 1%nat = Some t
       /\ offset t = 1
       /\ expected t
          = [0x34; 0x78; 0x56; 0x12; 0x34; 0x78; 0x56; 0x12] ++ drop 8 sentinel
       /\ pi_error_expected t = true.
Proof.
  intros Hfuel.
  assert (WriteWithSimulatedQuirks fuel 1 (reference_buffer + 1) (swapped_word Swap 2) 2
          = Some (tile reference_buffer 2 0x34785612)) as Hmodel.
  { rewrite quirk_path_tile; [|lia|reflexivity|reflexivity|vm_compute; lia].
    do 2 f_equal. change (1 mod 8) with 1. lia. }
  split; [reflexivity|]. split; [reflexivity|]. split; [reflexivity|].
  split; [exact Hmodel|].
  destruct (UnalignedStoresTest_trials processor reference_buffer fuel ptr 2 false
              Swap s ltac:(lia) Hfuel) as (trials & Hrun & Hoffs & Hall).
  assert ((offset <$> trials) !! 1%nat = Some 1) as Hlook by (rewrite Hoffs; reflexivity).
  apply list_lookup_fmap_Some in Hlook as (t & Hoff & Ht). symmetry in Hoff.
  exists trials, t. split; [exact Hrun|]. split; [exact Ht|]. split; [exact Hoff|].
  rewrite Forall_lookup in Hall.
  destruct (Hall _ _ Ht) as (_ & s0 & s1 & Htrial).
  apply trial_at_inv in Htrial as (tested & simulated & Hstores & _ & -> & ->).
  split; [|reflexivity].
  unfold stores_at in Hstores. rewrite Hoff in Hstores. cbn [stsw] in Hstores.
  rewrite Hmodel in Hstores. simpl in Hstores. injection Hstores as _ <-.
  rewrite (window_after s0 reference_buffer 0 _ (word_image 2 0x34785612)).
  - reflexivity.
  - intros s'. rewrite Z.add_0_r. apply (mem_run_tile 0x34785612 2).
  - lia.
  - simpl. lia.
Qed.

Lemma swapped_halfword_trial_witness :
  swapped_word Swap 2 = 0x12347856
  /\ (Z.land 1 3 + 2) * 8 = 24
  /\ Common.RotateRight (swapped_word Swap 2) 24 = 0x34785612
  /\ WriteWithSimulatedQuirks 34 1 (40 + 1) (swapped_word Swap 2) 2
     = Some (tile 40 2 0x34785612)
  /\ exists (trials : list trial) (t : trial),
       UnalignedStoresTest silent 40 34 100 2 false Swap zero_machine = Some trials
       /\ trials !! 1%nat = Some t
       /\ offset t = 1
       /\ expected t
          = [0x34; 0x78; 0x56; 0x12; 0x34; 0x78; 0x56; 0x12] ++ drop 8 sentinel
       /\ pi_error_expected t = true.
Proof.
  apply (swapped_halfword_trial silent 40 34 100 zero_machine). lia.
Defined.

(** C4 as stated fails: for size 2 the model does not start from
    0x78563412, and what it issues is not the tile of that word rotated by
    24 bits. *)
Lemma swapped_halfword_is_not_full_swap :
  swapped_word Swap 2 <> 0x78563412
  /\ WriteWithSimulatedQuirks 3 1 (40 + 1) (swapped_word Swap 2) 2
     <> Some (tile 40 2 (Common.RotateRight 0x78563412 24)).
Proof. split; vm_compute; discriminate. Qed.

(** C5, as the code has it.  For a string mode and a size from 0 to 32 the
    reference window of every trial is the sentinel fill with the first
    [size] bytes of [STSW_VALUES] copied to the offset, whether or not the
    memory is cache-backed and whatever the offset; a size of 0 copies
    nothing. *)
Theorem string_model_copies_size_bytes
    (processor : list insn -> hw_result) (reference_buffer : Z) (fuel : nat)
    (ptr size : Z) (cached_memory : bool) (mode : Mode) (s : machine) :
  mode = Stswi \/ mode = Stswx -> 0 <= size <= 32 -> (34 <= fuel)%nat ->
  exists trials : list trial,
    UnalignedStoresTest processor reference_buffer fuel ptr size cached_memory mode s
    = Some trials
    /\ offset <$> trials = seqZ 0 (33 - size)
    /\ Forall (fun t => expected t
                        = take (Z.to_nat (offset t)) sentinel
                          ++ take (Z.to_nat size) STSW_VALUES
                          ++ drop (Z.to_nat (offset t + size)) sentinel)
         trials.
Proof.
  intros Hmode Hsize Hfuel.
  destruct (UnalignedStoresTest_trials processor reference_buffer fuel ptr size
              cached_memory mode s Hsize Hfuel) as (trials & Hrun & Hoffs & Hall).
  exists trials. split; [exact Hrun|]. split; [exact Hoffs|].
  eapply Forall_impl; [exact Hall|]. simpl.
  intros t (Hoff & s0 & s1 & Ht).
  apply trial_at_inv in Ht as (tested & simulated & Hstores & _ & -> & _).
  assert (simulated
          = WriteStswSimulated (reference_buffer + offset t) STSW_VALUES size) as ->.
  { unfold stores_at in Hstores.
    destruct Hmode as [-> | ->]; cbn [stsw] in Hstores.
    - rewrite WriteStswi_dispatch in Hstores. simpl in Hstores. congruence.
    - simpl in Hstores. congruence. }
  assert (length (take (Z.to_nat size) STSW_VALUES) = Z.to_nat size) as Hlen.
  { rewrite length_take. change (length STSW_VALUES) with 32%nat. lia. }
  rewrite (window_after s0 reference_buffer (offset t) _
             (take (Z.to_nat size) STSW_VALUES)).
  - rewrite Hlen. do 3 f_equal. lia.
  - intros s'. unfold WriteStswSimulated. rewrite mem_run_std_copy.
    rewrite fmap_take. reflexivity.
  - lia.
  - rewrite Hlen. lia.
Qed.

Lemma string_model_copies_size_bytes_witness :
  exists trials : list trial,
    UnalignedStoresTest silent 40 34 100 5 true Stswi zero_machine = Some trials
    /\ offset <$> trials = seqZ 0 (33 - 5)
    /\ Forall (fun t => expected t
                        = take (Z.to_nat (offset t)) sentinel
                          ++ take (Z.to_nat 5) STSW_VALUES
                          ++ drop (Z.to_nat (offset t + 5)) sentinel)
         trials.
Proof.
  apply (string_model_copies_size_bytes silent 40 34 100 5 true Stswi zero_machine).
  - left. reflexivity.
  - lia.
  - lia.
Defined.

(** C5 as stated fails at size 0: the model issues no store, so the window
    of the first trial is the sentinel fill and not the 32 source bytes. *)
Lemma string_size_zero_copies_nothing :
  WriteStswSimulated 40 STSW_VALUES 0 = []
  /\ exists (trials : list trial) (t : trial),
       UnalignedStoresTest silent 40 34 100 0 false Stswx zero_machine = Some trials
       /\ trials !! 0%nat = Some t
       /\ offset t = 0
       /\ expected t = sentinel
       /\ expected t <> STSW_VALUES.
Proof.
  split; [reflexivity|].
  eexists _, _. split; [vm_compute; reflexivity|].
  split; [reflexivity|]. split; [reflexivity|]. split; [reflexivity|].
  vm_compute. discriminate.
Qed.

(** * Further properties of the program *)

(** ** Words and their bytes *)

Lemma testbit_byte (b k : Z) : is_byte b -> 8 <= k -> Z.testbit b k = false.
Proof.
  intros Hb Hk. rewrite <- (Z.mod_small b (2 ^ 8)) by (unfold is_byte in Hb; lia).
  apply Z.mod_pow2_bits_high. lia.
Qed.

Lemma byte_of_is_byte (v k : Z) : is_byte (byte_of v k).
Proof.
  unfold is_byte, byte_of. change 255 with (Z.ones 8).
  rewrite Z.land_ones by lia. apply Z.mod_pos_bound. lia.
Qed.

Lemma testbit_be_word (b0 b1 b2 b3 i : Z) :
  is_byte b0 -> is_byte b1 -> is_byte b2 -> is_byte b3 -> 0 <= i ->
  Z.testbit (be_word b0 b1 b2 b3) i
  = if i <? 8 then Z.testbit b3 i
    else if i <? 16 then Z.testbit b2 (i - 8)
    else if i <? 24 then Z.testbit b1 (i - 16)
    else Z.testbit b0 (i - 24).
Proof.
  intros H0 H1 H2 H3 Hi. unfold be_word.
  rewrite !Z.lor_spec, !Z.shiftl_spec by lia.
  destruct (Z.ltb_spec i 8); [|destruct (Z.ltb_spec i 16); [|destruct (Z.ltb_spec i 24)]].
  - rewrite !(Z.testbit_neg_r _ (i - _)) by lia. reflexivity.
  - rewrite (Z.testbit_neg_r _ (i - 24)), (Z.testbit_neg_r _ (i - 16)) by lia.
    rewrite (testbit_byte b3 i) by (assumption || lia).
    simpl. apply orb_false_r.
  - rewrite (Z.testbit_neg_r _ (i - 24)) by lia.
    rewrite (testbit_byte b3 i), (testbit_byte b2 (i - 8)) by (assumption || lia).
    simpl. rewrite !orb_false_r. reflexivity.
  - rewrite (testbit_byte b3 i), (testbit_byte b2 (i - 8)),
      (testbit_byte b1 (i - 16)) by (assumption || lia).
    rewrite !orb_false_r. reflexivity.
Qed.

(** Byte [3 - j] of a word put together from four bytes is the [j]-th of
    them. *)
Lemma byte_of_be_word (b0 b1 b2 b3 j : Z) :
  is_byte b0 -> is_byte b1 -> is_byte b2 -> is_byte b3 -> 0 <= j < 4 ->
  byte_of (be_word b0 b1 b2 b3) (3 - j)
  = nth (Z.to_nat j) [b0; b1; b2; b3] 0.
Proof.
  intros H0 H1 H2 H3 Hj. apply Z.bits_inj'. intros i Hi.
  rewrite testbit_byte_of, testbit_be_word by (assumption || lia).
  destruct (Z.ltb_spec i 8) as [Hlt|Hge].
  - rewrite andb_true_r.
    assert (j = 0 \/ j = 1 \/ j = 2 \/ j = 3) as [->|[->|[->| ->]]] by lia;
      simpl nth;
      repeat (match goal with
              | |- context [?a <? ?b] => destruct (Z.ltb_spec a b); try lia
              end);
      f_equal; lia.
  - rewrite andb_false_r. symmetry.
    assert (j = 0 \/ j = 1 \/ j = 2 \/ j = 3) as [->|[->|[->| ->]]] by lia;
      simpl nth; apply testbit_byte; assumption || lia.
Qed.

(** A 32-bit word is put together again from its four bytes. *)
Lemma be_word_byte_of (v : Z) :
  0 <= v < 2 ^ 32 ->
  be_word (byte_of v 3) (byte_of v 2) (byte_of v 1) (byte_of v 0) = v.
Proof.
  intros Hv. apply Z.bits_inj'. intros i Hi.
  rewrite testbit_be_word by (auto using byte_of_is_byte).
  destruct (Z.ltb_spec i 8); [|destruct (Z.ltb_spec i 16); [|destruct (Z.ltb_spec i 24)]];
    rewrite testbit_byte_of by lia.
  - destruct (Z.ltb_spec i 8); [|lia]. rewrite andb_true_r. f_equal; lia.
  - destruct (Z.ltb_spec (i - 8) 8); [|lia]. rewrite andb_true_r. f_equal; lia.
  - destruct (Z.ltb_spec (i - 16) 8); [|lia]. rewrite andb_true_r. f_equal; lia.
  - destruct (Z.ltb_spec (i - 24) 8).
    + rewrite andb_true_r. f_equal; lia.
    + rewrite andb_false_r. symmetry. apply testbit_above32; [assumption|lia].
Qed.

Lemma store_bytes_at (m : Z -> Z) (e : Z) (bs : list Z) (k : nat) (b : Z) :
  bs !! k = Some b -> store_bytes m e bs (e + Z.of_nat k) = b.
Proof.
  intros Hk. rewrite store_bytes_spec. unfold overlay.
  rewrite decide_True by lia.
  replace (Z.to_nat (e + Z.of_nat k - e)) with k by lia. rewrite Hk. reflexivity.
Qed.

Lemma store_bytes_frame (m : Z -> Z) (e : Z) (bs : list Z) (a : Z) :
  ~ (e <= a < e + Z.of_nat (length bs)) -> store_bytes m e bs a = m a.
Proof. intros Hout. rewrite store_bytes_spec, overlay_outside by assumption. reflexivity. Qed.

Lemma Read_store_bytes (m : Z -> Z) (e b0 b1 b2 b3 : Z) :
  Read (store_bytes m e [b0; b1; b2; b3]) e = be_word b0 b1 b2 b3.
Proof.
  unfold Read.
  rewrite <- (Z.add_0_r e) at 2.
  rewrite (store_bytes_at m e _ 0 b0), (store_bytes_at m e _ 1 b1),
    (store_bytes_at m e _ 2 b2), (store_bytes_at m e _ 3 b3) by reflexivity.
  reflexivity.
Qed.

Lemma Read_word_image (m : Z -> Z) (e w : Z) (n k : nat) :
  0 <= w < 2 ^ 32 -> (k < n)%nat ->
  Read (store_bytes m e (word_image n w)) (e + 4 * Z.of_nat k) = w.
Proof.
  intros Hw Hk. unfold Read.
  replace (e + 4 * Z.of_nat k) with (e + Z.of_nat (4 * k)) by lia.
  replace (e + Z.of_nat (4 * k) + 1) with (e + Z.of_nat (4 * k + 1)) by lia.
  replace (e + Z.of_nat (4 * k) + 2) with (e + Z.of_nat (4 * k + 2)) by lia.
  replace (e + Z.of_nat (4 * k) + 3) with (e + Z.of_nat (4 * k + 3)) by lia.
  rewrite (store_bytes_at m e _ (4 * k) (byte_of w 3)),
    (store_bytes_at m e _ (4 * k + 1) (byte_of w 2)),
    (store_bytes_at m e _ (4 * k + 2) (byte_of w 1)),
    (store_bytes_at m e _ (4 * k + 3) (byte_of w 0)).
  - apply be_word_byte_of. assumption.
  - rewrite lookup_word_image by lia. do 2 f_equal. lia_mod.
  - rewrite lookup_word_image by lia. do 2 f_equal. lia_mod.
  - rewrite lookup_word_image by lia. do 2 f_equal. lia_mod.
  - rewrite lookup_word_image by lia. do 2 f_equal. lia_mod.
Qed.

Lemma mem_run_Write_swap (ptr value size : Z) (swap : bool) (s : machine) :
  size = 1 \/ size = 2 \/ size = 4 ->
  mem (run (Write ptr value size swap) s)
  = store_bytes (mem s) ptr
      (if swap && negb (size =? 1) then le_bytes value size else be_bytes value size).
Proof. intros [->|[->| ->]]; destruct swap; reflexivity. Qed.

(** ** [Read] and [Write] *)

(** X1. A word stored with [Write(ptr, value, 4, false)] is the word [Read]
    loads from [ptr]. *)
Theorem Read_after_Write (ptr value : Z) (s : machine) :
  0 <= value < 2 ^ 32 ->
  Read (mem (run (Write ptr value 4 false) s)) ptr = value.
Proof.
  intros Hv. rewrite mem_run_Write by auto.
  change (be_bytes value 4)
    with [byte_of value 3; byte_of value 2; byte_of value 1; byte_of value 0].
  rewrite Read_store_bytes. apply be_word_byte_of. assumption.
Qed.

Lemma Read_after_Write_witness :
  Read (mem (run (Write 40 word 4 false) zero_machine)) 40 = word.
Proof. apply (Read_after_Write 40 word zero_machine). unfold word. lia. Defined.

(** X2. Storing a word byte-reversed, loading it, and storing the loaded
    word byte-reversed again gives memory from which the first word is
    loaded. *)
Theorem swapped_Write_twice (ptr ptr' value : Z) (s s' : machine) :
  0 <= value < 2 ^ 32 ->
  Read
    (mem (run (Write ptr' (Read (mem (run (Write ptr value 4 true) s)) ptr) 4 true) s'))
    ptr'
  = value.
Proof.
  intros Hv. rewrite !mem_run_Write_swap by auto. simpl andb. cbv iota.
  change (le_bytes value 4)
    with [byte_of value 0; byte_of value 1; byte_of value 2; byte_of value 3].
  rewrite Read_store_bytes.
  set (r := be_word _ _ _ _).
  change (le_bytes r 4) with [byte_of r 0; byte_of r 1; byte_of r 2; byte_of r 3].
  rewrite Read_store_bytes. subst r.
  rewrite (byte_of_be_word _ _ _ _ 3), (byte_of_be_word _ _ _ _ 2),
    (byte_of_be_word _ _ _ _ 1), (byte_of_be_word _ _ _ _ 0)
    by (auto using byte_of_is_byte; lia).
  simpl nth. apply be_word_byte_of. assumption.
Qed.

Lemma swapped_Write_twice_witness :
  Read
    (mem (run (Write 80 (Read (mem (run (Write 40 word 4 true) zero_machine)) 40) 4 true)
            zero_machine))
    80
  = word.
Proof.
  apply (swapped_Write_twice 40 80 word zero_machine zero_machine). unfold word. lia.
Defined.



(** X4. On the quirk path every aligned word of the tile, loaded with
    [Read] as the failure report does, is the rotated value. *)
Theorem tile_words_read_rotated
    (fuel : nat) (alignment ptr value size k : Z) (s : machine) :
  size = 1 \/ size = 2 \/ size = 4 -> alignment mod 4 <> 0 \/ size < 4 ->
  0 <= value < 2 ^ 32 -> (3 <= fuel)%nat ->
  0 <= k < round_up_8 (alignment mod 8 + size) / 4 ->
  exists p : list insn,
    WriteWithSimulatedQuirks fuel alignment ptr value size = Some p
    /\ Read (mem (run p s)) (ptr - alignment mod 8 + 4 * k)
       = Common.RotateRight value ((alignment mod 4 + size) * 8).
Proof.
  intros Hsize Hquirk Hvalue Hfuel Hk.
  pose proof (Z.mod_pos_bound alignment 8 ltac:(lia)) as Ha.
  eexists. split.
  - apply quirk_path_tile; try lia.
    + apply takes_quirk_path_true. assumption.
    + assert ((alignment mod 8 + size + 7) / 8 <= 2) by lia_mod. lia.
  - rewrite <- (Z2Nat.id (round_up_8 _ / 4)) by lia. rewrite mem_run_tile.
    rewrite <- (Z2Nat.id k) by lia.
    apply Read_word_image; [apply RotateRight_range|lia].
Qed.

Lemma tile_words_read_rotated_witness :
  exists p : list insn,
    WriteWithSimulatedQuirks 3 1 41 0x12347856 2 = Some p
    /\ Read (mem (run p zero_machine)) (41 - 1 mod 8 + 4 * 1)
       = Common.RotateRight 0x12347856 ((1 mod 4 + 2) * 8).
Proof.
  apply (tile_words_read_rotated 3 1 41 0x12347856 2 1 zero_machine).
  - right. left. reflexivity.
  - right. lia.
  - lia.
  - lia.
  - vm_compute. split; discriminate || reflexivity.
Defined.

(** ** String loads and stores on ordinary memory *)

Lemma nth_is_byte (src : list Z) (k : nat) :
  Forall is_byte src -> is_byte (nth k src 0).
Proof.
  intros Hsrc. rewrite nth_lookup.
  destruct (src !! k) as [b|] eqn:Hk; simpl.
  - eapply Forall_lookup_1; eassumption.
  - unfold is_byte. lia.
Qed.

(** After [lswx 24] of [n] bytes, byte [k] of the register run is byte [k]
    of the source. *)
Lemma string_byte_load_string (g : Z -> Z) (src : list Z) (n k : Z) :
  Forall is_byte src -> 0 <= n <= 32 -> 0 <= k < n ->
  string_byte (load_string g 24 src n) 24 k = nth (Z.to_nat k) src 0.
Proof.
  intros Hsrc Hn Hk. unfold string_byte, load_string. cbv zeta.
  assert ((24 + k / 4) mod 32 = 24 + k / 4) as -> by lia_mod.
  assert ((24 + k / 4 - 24) mod 32 = k / 4) as -> by lia_mod.
  destruct (Z.ltb_spec (4 * (k / 4)) n) as [_|Hge]; [|lia_mod].
  assert (forall x, is_byte (if x <? n then nth (Z.to_nat x) src 0 else 0)) as Hb.
  { intros x. destruct (x <? n); [apply nth_is_byte; assumption|].
    unfold is_byte. lia. }
  rewrite byte_of_be_word
    by first [apply Hb | apply nth_is_byte; assumption | lia_mod].
  assert (k mod 4 = 0 \/ k mod 4 = 1 \/ k mod 4 = 2 \/ k mod 4 = 3)
    as [E|[E|[E|E]]] by lia_mod;
    rewrite E; simpl nth;
    try match goal with
        | |- context [?x <? n] => destruct (Z.ltb_spec x n); [|lia_mod]
        end;
    do 2 f_equal; lia_mod.
Qed.

Lemma nth_seqZ_take (src : list Z) (m : Z) :
  0 <= m <= Z.of_nat (length src) ->
  (fun k => nth (Z.to_nat k) src 0) <$> seqZ 0 m = take (Z.to_nat m) src.
Proof.
  intros Hm. apply list_eq. intros k. rewrite list_lookup_fmap.
  destruct (decide (Z.of_nat k < m)) as [Hk|Hk].
  - rewrite lookup_seqZ_lt, lookup_take_lt by lia. simpl.
    rewrite Z.add_0_l, Nat2Z.id, nth_lookup.
    destruct (lookup_lt_is_Some_2 src k ltac:(lia)) as [x ->]. reflexivity.
  - rewrite lookup_seqZ_ge by lia. simpl. symmetry.
    apply lookup_ge_None_2. rewrite length_take. lia.
Qed.

Lemma string_run_take (g : Z -> Z) (src : list Z) (n m : Z) :
  Forall is_byte src -> 0 <= n <= 32 -> 0 <= m <= n -> n <= Z.of_nat (length src) ->
  string_byte (load_string g 24 src n) 24 <$> seqZ 0 m = take (Z.to_nat m) src.
Proof.
  intros Hsrc Hn Hm Hlen. rewrite <- nth_seqZ_take by lia.
  apply list_fmap_ext. intros j k [-> Hj]%lookup_seqZ.
  apply string_byte_load_string; assumption || lia.
Qed.

Lemma xer_count_small (x : Z) : 0 <= x <= 32 -> xer_count (wrap32 x) = x.
Proof.
  intros Hx. unfold xer_count, wrap32. rewrite Z.mod_small by lia.
  change 127 with (Z.ones 7). rewrite Z.land_ones by lia. apply Z.mod_small. lia.
Qed.

Lemma stswi_nbytes_mod (n : Z) : 1 <= n <= 32 -> stswi_nbytes (n mod 32) = n.
Proof.
  intros Hn. unfold stswi_nbytes.
  destruct (Z.eqb_spec (n mod 32) 0); lia_mod.
Qed.

Lemma mem_run_WriteStswiImpl (out : Z) (src : list Z) (out_size in_size : Z) (s : machine) :
  Forall is_byte src -> 0 <= in_size <= 32 -> 1 <= out_size <= in_size ->
  in_size <= Z.of_nat (length src) ->
  mem (run (WriteStswiImpl (out_size mod 32) out src in_size) s)
  = store_bytes (mem s) out (take (Z.to_nat out_size) src).
Proof.
  intros Hsrc Hin Hout Hlen. unfold WriteStswiImpl, run.
  cbn [fold_left exec mem gpr xer]. unfold store_string. cbn [mem gpr xer].
  rewrite xer_count_small, stswi_nbytes_mod by lia.
  rewrite string_run_take by (assumption || lia). reflexivity.
Qed.

Lemma mem_run_WriteStswx (out : Z) (src : list Z) (out_size in_size : Z) (s : machine) :
  Forall is_byte src -> 0 <= in_size <= 32 -> 0 <= out_size <= in_size ->
  in_size <= Z.of_nat (length src) ->
  mem (run (WriteStswx out src out_size in_size) s)
  = store_bytes (mem s) out (take (Z.to_nat out_size) src).
Proof.
  intros Hsrc Hin Hout Hlen. unfold WriteStswx, run.
  cbn [fold_left exec mem gpr xer]. unfold store_string. cbn [mem gpr xer].
  rewrite !xer_count_small by lia.
  rewrite string_run_take by (assumption || lia). reflexivity.
Qed.

Lemma byte_of_0_byte (b : Z) : is_byte b -> byte_of b 0 = b.
Proof.
  intros Hb. unfold byte_of. rewrite Z.shiftr_0_r. change 255 with (Z.ones 8).
  rewrite Z.land_ones by lia. apply Z.mod_small. exact Hb.
Qed.

Lemma mem_run_WriteStswSimulated (out : Z) (src : list Z) (size : Z) (s : machine) :
  Forall is_byte src ->
  mem (run (WriteStswSimulated out src size) s)
  = store_bytes (mem s) out (take (Z.to_nat size) src).
Proof.
  intros Hsrc. unfold WriteStswSimulated. rewrite mem_run_std_copy. f_equal.
  rewrite <- (list_fmap_id (take _ src)) at 2.
  apply list_fmap_ext. intros k b Hb. apply byte_of_0_byte.
  apply lookup_take_Some in Hb as [Hb _].
  eapply Forall_lookup_1; eassumption.
Qed.

Lemma read_bytes_take (m : Z -> Z) (out n : Z) (src : list Z) :
  0 <= n <= Z.of_nat (length src) ->
  read_bytes (store_bytes m out (take (Z.to_nat n) src)) out n = take (Z.to_nat n) src.
Proof.
  intros Hn.
  replace n with (Z.of_nat (length (take (Z.to_nat n) src))) at 2
    by (rewrite length_take; lia).
  apply read_bytes_store_bytes.
Qed.

(** X5. On ordinary memory [WriteStswi] with a count from 1 to 32, not
    above the count loaded, stores exactly that many bytes of the source at
    [out_ptr] and changes no other byte. *)
Theorem WriteStswi_stores_count_bytes
    (out_ptr : Z) (in_ptr : list Z) (out_size in_size : Z) :
  Forall is_byte in_ptr -> 0 <= in_size <= 32 -> 1 <= out_size <= in_size ->
  in_size <= Z.of_nat (length in_ptr) ->
  exists p : list insn,
    WriteStswi out_ptr in_ptr out_size in_size = Some p
    /\ forall s : machine,
         read_bytes (mem (run p s)) out_ptr out_size = take (Z.to_nat out_size) in_ptr
         /\ forall a : Z,
              ~ (out_ptr <= a < out_ptr + out_size) -> mem (run p s) a = mem s a.
Proof.
  intros Hsrc Hin Hout Hlen. eexists. split; [apply WriteStswi_dispatch|].
  intros s. rewrite mem_run_WriteStswiImpl by assumption. split.
  - apply read_bytes_take. lia.
  - intros a Ha. apply store_bytes_frame. rewrite length_take. lia.
Qed.

Lemma STSW_VALUES_bytes : Forall is_byte STSW_VALUES.
Proof. unfold STSW_VALUES, is_byte. repeat (constructor; [lia|]). constructor. Qed.

Lemma WriteStswi_stores_count_bytes_witness :
  exists p : list insn,
    WriteStswi 40 STSW_VALUES 5 32 = Some p
    /\ forall s : machine,
         read_bytes (mem (run p s)) 40 5 = take (Z.to_nat 5) STSW_VALUES
         /\ forall a : Z, ~ (40 <= a < 40 + 5) -> mem (run p s) a = mem s a.
Proof.
  apply (WriteStswi_stores_count_bytes 40 STSW_VALUES 5 32).
  - unfold STSW_VALUES, is_byte. repeat (constructor; [lia|]). constructor.
  - lia.
  - lia.
  - simpl. lia.
Defined.

(** X6. On ordinary memory [WriteStswx] with a count from 0 to 32, not
    above the count loaded, stores exactly that many bytes of the source at
    [out_ptr] and changes no other byte; with a count of 0 it changes
    nothing. *)
Theorem WriteStswx_stores_count_bytes
    (out_ptr : Z) (in_ptr : list Z) (out_size in_size : Z) (s : machine) :
  Forall is_byte in_ptr -> 0 <= in_size <= 32 -> 0 <= out_size <= in_size ->
  in_size <= Z.of_nat (length in_ptr) ->
  read_bytes (mem (run (WriteStswx out_ptr in_ptr out_size in_size) s)) out_ptr out_size
  = take (Z.to_nat out_size) in_ptr
  /\ forall a : Z,
       ~ (out_ptr <= a < out_ptr + out_size) ->
       mem (run (WriteStswx out_ptr in_ptr out_size in_size) s) a = mem s a.
Proof.
  intros Hsrc Hin Hout Hlen. rewrite mem_run_WriteStswx by assumption. split.
  - apply read_bytes_take. lia.
  - intros a Ha. apply store_bytes_frame. rewrite length_take. lia.
Qed.

Lemma WriteStswx_stores_count_bytes_witness :
  read_bytes (mem (run (WriteStswx 40 STSW_VALUES 0 32) zero_machine)) 40 0
  = take (Z.to_nat 0) STSW_VALUES
  /\ forall a : Z,
       ~ (40 <= a < 40 + 0) ->
       mem (run (WriteStswx 40 STSW_VALUES 0 32) zero_machine) a = mem zero_machine a.
Proof.
  apply (WriteStswx_stores_count_bytes 40 STSW_VALUES 0 32 zero_machine).
  - unfold STSW_VALUES, is_byte. repeat (constructor; [lia|]). constructor.
  - lia.
  - lia.
  - simpl. lia.
Defined.

(** X7. On ordinary memory the string stores under test leave the memory
    that [WriteStswSimulated] leaves for the same destination, source and
    size: [WriteStswx] for sizes from 0, [WriteStswi] for sizes from 1. *)
Theorem string_stores_match_simulation
    (out_ptr : Z) (in_ptr : list Z) (size in_size : Z) (s : machine) :
  Forall is_byte in_ptr -> 0 <= in_size <= 32 -> 0 <= size <= in_size ->
  in_size <= Z.of_nat (length in_ptr) ->
  mem (run (WriteStswx out_ptr in_ptr size in_size) s)
  = mem (run (WriteStswSimulated out_ptr in_ptr size) s)
  /\ (1 <= size ->
      exists p : list insn,
        WriteStswi out_ptr in_ptr size in_size = Some p
        /\ mem (run p s) = mem (run (WriteStswSimulated out_ptr in_ptr size) s)).
Proof.
  intros Hsrc Hin Hsize Hlen. rewrite mem_run_WriteStswSimulated by assumption.
  split; [apply mem_run_WriteStswx; assumption|].
  intros Hpos. eexists. split; [apply WriteStswi_dispatch|].
  apply mem_run_WriteStswiImpl; assumption || lia.
Qed.

Lemma string_stores_match_simulation_witness :
  mem (run (WriteStswx 40 STSW_VALUES 7 32) zero_machine)
  = mem (run (WriteStswSimulated 40 STSW_VALUES 7) zero_machine)
  /\ (1 <= 7 ->
      exists p : list insn,
        WriteStswi 40 STSW_VALUES 7 32 = Some p
        /\ mem (run p zero_machine)
           = mem (run (WriteStswSimulated 40 STSW_VALUES 7) zero_machine)).
Proof.
  apply (string_stores_match_simulation 40 STSW_VALUES 7 32 zero_machine).
  - unfold STSW_VALUES, is_byte. repeat (constructor; [lia|]). constructor.
  - lia.
  - lia.
  - simpl. lia.
Defined.

(** ** The reference window *)

Lemma window_patched (s : machine) (rb b : Z) (p : list insn) (mid : list Z) :
  (forall s0, mem (run p s0) = store_bytes (mem s0) (rb + b) mid) ->
  0 <= b -> b + Z.of_nat (length mid) <= 32 ->
  read_bytes (mem (run (std_fill rb 8 fill_word ++ p) s)) rb 32 = patched b mid.
Proof. apply window_after. Qed.

Lemma trial_at_checks
    (processor : list insn -> hw_result) (reference_buffer : Z) (fuel : nat)
    (ptr size : Z) (cached_memory : bool) (mode : Mode)
    (i : Z) (s s' : machine) (t : trial) :
  trial_at processor reference_buffer fuel ptr size cached_memory mode i s
  = Some (t, s') ->
  exists tested simulated : list insn,
    stores_at reference_buffer fuel ptr size cached_memory mode i
    = Some (tested, simulated)
    /\ actual t = hw_bytes (processor (std_fill ptr 8 fill_word ++ tested))
    /\ pi_error_actual t
       = hw_pi_error (processor (std_fill ptr 8 fill_word ++ tested))
    /\ data_ok t = bool_decide (actual t = expected t)
    /\ pi_error_ok t = bool_decide (pi_error_actual t = pi_error_expected t).
Proof.
  unfold trial_at. intros Ht.
  destruct (stores_at _ _ _ _ _ _ _) as [[tested simulated]|]; [|discriminate].
  simpl in Ht. injection Ht as <- <-.
  exists tested, simulated. repeat split.
Qed.

(** X8. On memory that is not cache-backed, for Regular and Swap with a
    size of 1, 2 or 4, the reference window of every trial is the sentinel
    fill with, on the quirk path, the tile of the rotated word over the
    8-byte groups that hold the store, and off it the stored word at the
    offset; every byte outside that stays a sentinel byte. *)
Theorem uncached_reference_window
    (processor : list insn -> hw_result) (reference_buffer : Z) (fuel : nat)
    (ptr size : Z) (mode : Mode) (s : machine) :
  mode = Regular \/ mode = Swap -> size = 1 \/ size = 2 \/ size = 4 ->
  (34 <= fuel)%nat ->
  exists trials : list trial,
    UnalignedStoresTest processor reference_buffer fuel ptr size false mode s
    = Some trials
    /\ Forall
         (fun t =>
            expected t
            = if takes_quirk_path (offset t) size
              then patched (offset t - offset t mod 8)
                     (word_image
                        (Z.to_nat (round_up_8 (offset t mod 8 + size) / 4))
                        (Common.RotateRight (swapped_word mode size)
                           ((offset t mod 4 + size) * 8)))
              else patched (offset t) (be_bytes (swapped_word mode size) size))
         trials.
Proof.
  intros Hmode Hsize Hfuel.
  destruct (UnalignedStoresTest_trials processor reference_buffer fuel ptr size
              false mode s ltac:(lia) Hfuel) as (trials & Hrun & _ & Hall).
  exists trials. split; [exact Hrun|].
  eapply Forall_impl; [exact Hall|]. simpl.
  intros t (Hoff & s0 & s1 & Ht).
  apply trial_at_inv in Ht as (tested & simulated & Hstores & _ & -> & _).
  set (i := offset t) in *.
  pose proof (Z.mod_pos_bound i 8 ltac:(lia)) as Hi8.
  unfold stores_at in Hstores.
  assert (stsw mode = false) as Hstsw by (destruct Hmode as [-> | ->]; reflexivity).
  rewrite Hstsw in Hstores.
  destruct (takes_quirk_path i size) eqn:Hpath.
  - rewrite quirk_path_tile in Hstores; [|lia|lia|assumption|].
    2: { assert ((i mod 8 + size + 7) / 8 <= 2) by lia_mod. lia. }
    simpl in Hstores. injection Hstores as _ <-.
    assert (0 <= round_up_8 (i mod 8 + size) / 4) as Hn
      by (unfold round_up_8; lia_mod).
    apply window_patched.
    + intros s'. rewrite <- (Z2Nat.id _ Hn), mem_run_tile.
      rewrite Nat2Z.id. f_equal. lia.
    + lia_mod.
    + rewrite length_word_image. unfold round_up_8 in *. lia_mod.
  - rewrite fast_path_store in Hstores by assumption.
    simpl in Hstores. injection Hstores as _ <-.
    apply window_patched.
    + intros s'. apply mem_run_Write. assumption.
    + lia.
    + rewrite length_be_bytes. lia.
Qed.

Lemma uncached_reference_window_witness :
  exists trials : list trial,
    UnalignedStoresTest silent 40 34 100 2 false Swap zero_machine = Some trials
    /\ Forall
         (fun t =>
            expected t
            = if takes_quirk_path (offset t) 2
              then patched (offset t - offset t mod 8)
                     (word_image
                        (Z.to_nat (round_up_8 (offset t mod 8 + 2) / 4))
                        (Common.RotateRight (swapped_word Swap 2)
                           ((offset t mod 4 + 2) * 8)))
              else patched (offset t) (be_bytes (swapped_word Swap 2) 2))
         trials.
Proof.
  apply (uncached_reference_window silent 40 34 100 2 Swap zero_machine).
  - right. reflexivity.
  - right. left. reflexivity.
  - lia.
Defined.

(** X9. On cache-backed memory, for Regular and Swap with a size of 1, 2 or
    4, the reference window of every trial is the sentinel fill with the low
    [size] bytes of the reference word, most significant first, at the
    offset. *)
Theorem cached_reference_window
    (processor : list insn -> hw_result) (reference_buffer : Z) (fuel : nat)
    (ptr size : Z) (mode : Mode) (s : machine) :
  mode = Regular \/ mode = Swap -> size = 1 \/ size = 2 \/ size = 4 ->
  (34 <= fuel)%nat ->
  exists trials : list trial,
    UnalignedStoresTest processor reference_buffer fuel ptr size true mode s
    = Some trials
    /\ Forall
         (fun t => expected t
                   = patched (offset t) (be_bytes (swapped_word mode size) size))
         trials.
Proof.
  intros Hmode Hsize Hfuel.
  destruct (UnalignedStoresTest_trials processor reference_buffer fuel ptr size
              true mode s ltac:(lia) Hfuel) as (trials & Hrun & _ & Hall).
  exists trials. split; [exact Hrun|].
  eapply Forall_impl; [exact Hall|]. simpl.
  intros t (Hoff & s0 & s1 & Ht).
  apply trial_at_inv in Ht as (tested & simulated & Hstores & _ & -> & _).
  unfold stores_at in Hstores.
  assert (stsw mode = false) as Hstsw by (destruct Hmode as [-> | ->]; reflexivity).
  rewrite Hstsw in Hstores. simpl in Hstores. injection Hstores as _ <-.
  apply window_patched.
  - intros s'. apply mem_run_Write. assumption.
  - lia.
  - rewrite length_be_bytes. lia.
Qed.

Lemma cached_reference_window_witness :
  exists trials : list trial,
    UnalignedStoresTest silent 40 34 100 4 true Swap zero_machine = Some trials
    /\ Forall
         (fun t => expected t = patched (offset t) (be_bytes (swapped_word Swap 4) 4))
         trials.
Proof.
  apply (cached_reference_window silent 40 34 100 4 Swap zero_machine).
  - right. reflexivity.
  - right. right. reflexivity.
  - lia.
Defined.

(** ** What the reference window depends on *)

Lemma plain_exec (ins : insn) (s s' : machine) (a : Z) :
  plain ins -> mem s a = mem s' a -> mem (exec ins s) a = mem (exec ins s') a.
Proof.
  intros [fp Hfp] Hs.
  destruct ins; try discriminate; cbn [exec mem];
    rewrite !store_bytes_spec, Hs; reflexivity.
Qed.

Lemma plain_run (p : list insn) :
  Forall plain p ->
  forall (s s' : machine) (a : Z),
    mem s a = mem s' a -> mem (run p s) a = mem (run p s') a.
Proof.
  induction 1 as [|ins p Hins _ IH]; intros s s' a Hs; [exact Hs|].
  rewrite !run_cons. apply IH, plain_exec; assumption.
Qed.

Lemma plain_Write (ptr value size : Z) (swap : bool) :
  Forall plain (Write ptr value size swap).
Proof.
  unfold Write. repeat case_match; repeat constructor; eexists; reflexivity.
Qed.

Lemma plain_quirk_loop (count base v : Z) (fuel : nat) :
  forall (i : Z) (p : list insn),
    quirk_loop fuel i count base v = Some p -> Forall plain p.
Proof.
  induction fuel as [|fuel IH]; intros i p Hp; [discriminate|].
  simpl in Hp. destruct (i <? count).
  - destruct (quirk_loop fuel _ count base v) as [rest|] eqn:Hrest; [|discriminate].
    simpl in Hp. injection Hp as <-.
    repeat constructor; try (eexists; reflexivity). eapply IH. eassumption.
  - injection Hp as <-. constructor.
Qed.

Lemma plain_WriteWithSimulatedQuirks
    (fuel : nat) (alignment ptr value size : Z) (p : list insn) :
  WriteWithSimulatedQuirks fuel alignment ptr value size = Some p -> Forall plain p.
Proof.
  unfold WriteWithSimulatedQuirks. destruct (takes_quirk_path alignment size).
  - apply plain_quirk_loop.
  - intros [= <-]. apply plain_Write.
Qed.

Lemma plain_std_copy (n : nat) : forall (src : list Z) (out : Z),
  Forall plain (std_copy src n out).
Proof.
  induction n as [|n IH]; intros src out; [constructor|].
  destruct src as [|b src]; [constructor|].
  simpl. constructor; [eexists; reflexivity|apply IH].
Qed.

Lemma plain_simulated
    (reference_buffer : Z) (fuel : nat) (ptr size : Z) (cached_memory : bool)
    (mode : Mode) (i : Z) (tested simulated : list insn) :
  stores_at reference_buffer fuel ptr size cached_memory mode i
  = Some (tested, simulated) ->
  Forall plain simulated.
Proof.
  unfold stores_at. destruct (stsw mode).
  - destruct (match mode with Stswi => _ | _ => _ end); [|discriminate].
    simpl. intros [= _ <-]. apply plain_std_copy.
  - destruct cached_memory.
    + simpl. intros [= _ <-]. apply plain_Write.
    + destruct (WriteWithSimulatedQuirks _ _ _ _ _) eqn:Hq; [|discriminate].
      simpl. intros [= _ <-]. eapply plain_WriteWithSimulatedQuirks. eassumption.
Qed.

Lemma filled_window (rb a : Z) (s s' : machine) :
  rb <= a < rb + 32 ->
  mem (run (std_fill rb 8 fill_word) s) a = mem (run (std_fill rb 8 fill_word) s') a.
Proof.
  intros Ha. rewrite !std_fill_tile, !mem_run_tile, !store_bytes_spec.
  unfold overlay. rewrite decide_True by lia.
  destruct (lookup_lt_is_Some_2 (word_image 8 fill_word) (Z.to_nat (a - rb)))
    as [b ->]; [|reflexivity].
  rewrite length_word_image. lia.
Qed.

Lemma trial_at_any_machine
    (processor : list insn -> hw_result) (reference_buffer : Z) (fuel : nat)
    (ptr size : Z) (cached_memory : bool) (mode : Mode) (i : Z) (s s' : machine) :
  fst <$> trial_at processor reference_buffer fuel ptr size cached_memory mode i s
  = fst <$> trial_at processor reference_buffer fuel ptr size cached_memory mode i s'.
Proof.
  unfold trial_at.
  destruct (stores_at _ _ _ _ _ _ _) as [[tested simulated]|] eqn:Hstores;
    [|reflexivity].
  cbv beta iota zeta delta [mbind option_bind fmap option_fmap option_map fst].
  assert (read_bytes
            (mem (run (std_fill reference_buffer 8 fill_word ++ simulated) s))
            reference_buffer 32
          = read_bytes
              (mem (run (std_fill reference_buffer 8 fill_word ++ simulated) s'))
              reference_buffer 32) as ->; [|reflexivity].
  unfold read_bytes. apply list_fmap_ext. intros k a [-> Hk]%lookup_seqZ.
  rewrite !run_app. apply plain_run.
  - eapply plain_simulated. eassumption.
  - apply filled_window. lia.
Qed.

Lemma sweep_loop_any_machine
    (processor : list insn -> hw_result) (reference_buffer : Z) (fuel : nat)
    (ptr size : Z) (cached_memory : bool) (mode : Mode) (steps : nat) :
  forall (i : Z) (s s' : machine),
    sweep_loop processor reference_buffer fuel ptr size cached_memory mode steps i s
    = sweep_loop processor reference_buffer fuel ptr size cached_memory mode steps i s'.
Proof.
  induction steps as [|steps IH]; intros i s s'; [reflexivity|].
  simpl. destruct (i <=? wrap32 (32 - size)); [|reflexivity].
  pose proof (trial_at_any_machine processor reference_buffer fuel ptr size
                cached_memory mode i s s') as Ht.
  destruct (trial_at _ _ _ _ _ _ _ i s) as [[t s1]|],
           (trial_at _ _ _ _ _ _ _ i s') as [[t' s1']|];
    simpl in Ht; try discriminate; [|reflexivity].
  injection Ht as <-. simpl. rewrite (IH _ s1 s1'). reflexivity.
Qed.

(** X10. What a sweep records does not depend on what the memory held
    before it: the fill rewrites the whole reference window in every
    iteration, and the model reads nothing else. *)
Theorem sweep_ignores_earlier_memory
    (processor : list insn -> hw_result) (reference_buffer : Z) (fuel : nat)
    (ptr size : Z) (cached_memory : bool) (mode : Mode) (s s' : machine) :
  UnalignedStoresTest processor reference_buffer fuel ptr size cached_memory mode s
  = UnalignedStoresTest processor reference_buffer fuel ptr size cached_memory mode s'.
Proof. apply sweep_loop_any_machine. Qed.

(** ** The sweep on a processor with ordinary memory *)

(** For the sizes [main] runs a mode with, and a reference store that is
    not the quirk model, the store under test and the reference store write
    the same bytes to their windows. *)
Lemma stores_at_same_bytes
    (reference_buffer : Z) (fuel : nat) (ptr size : Z) (cached_memory : bool)
    (mode : Mode) (i : Z) (tested simulated : list insn) :
  run_by_main mode size -> cached_memory = true \/ stsw mode = true ->
  stores_at reference_buffer fuel ptr size cached_memory mode i
  = Some (tested, simulated) ->
  exists mid : list Z,
    Z.of_nat (length mid) = size
    /\ (forall s0, mem (run tested s0) = store_bytes (mem s0) (ptr + i) mid)
    /\ (forall s0, mem (run simulated s0)
                   = store_bytes (mem s0) (reference_buffer + i) mid).
Proof.
  intros Hsize Hclean. unfold stores_at.
  destruct mode; cbn [stsw run_by_main] in *.
  - destruct Hclean as [-> |]; [|discriminate]. simpl. intros [= <- <-].
    exists (be_bytes word size). rewrite length_be_bytes.
    split; [lia|]. split; intros s0; apply mem_run_Write; assumption.
  - destruct Hclean as [-> |]; [|discriminate]. simpl. intros [= <- <-].
    exists (le_bytes word size). rewrite length_le_bytes.
    split; [lia|]. split; intros s0.
    + rewrite mem_run_Write_swap by lia.
      destruct Hsize as [-> | ->]; reflexivity.
    + rewrite mem_run_Write by lia.
      destruct Hsize as [-> | ->]; reflexivity.
  - rewrite WriteStswi_dispatch. simpl. intros [= <- <-].
    exists (take (Z.to_nat size) STSW_VALUES).
    split; [rewrite length_take; simpl; lia|]. split; intros s0.
    + apply mem_run_WriteStswiImpl; simpl; lia || apply STSW_VALUES_bytes.
    + apply mem_run_WriteStswSimulated, STSW_VALUES_bytes.
  - simpl. intros [= <- <-].
    exists (take (Z.to_nat size) STSW_VALUES).
    split; [rewrite length_take; simpl; lia|]. split; intros s0.
    + apply mem_run_WriteStswx; simpl; lia || apply STSW_VALUES_bytes.
    + apply mem_run_WriteStswSimulated, STSW_VALUES_bytes.
Qed.

Lemma sweep_passes_on_ordinary_memory
    (processor : list insn -> hw_result) (reference_buffer : Z) (fuel : nat)
    (ptr size : Z) (cached_memory : bool) (mode : Mode) (m0 s : machine) :
  ordinary processor ptr m0 ->
  run_by_main mode size -> cached_memory = true \/ stsw mode = true ->
  (34 <= fuel)%nat ->
  exists trials : list trial,
    UnalignedStoresTest processor reference_buffer fuel ptr size cached_memory mode s
    = Some trials
    /\ length trials = Z.to_nat (33 - size)
    /\ Forall (fun t => data_ok t = true /\ pi_error_ok t = true) trials.
Proof.
  intros Hord Hsize Hclean Hfuel.
  assert (0 <= size <= 32) as Hrange
    by (destruct mode; cbn [run_by_main] in Hsize; lia).
  destruct (UnalignedStoresTest_trials processor reference_buffer fuel ptr size
              cached_memory mode s Hrange Hfuel) as (trials & Hrun & Hoffs & Hall).
  exists trials. split; [exact Hrun|]. split.
  { rewrite <- (length_fmap offset), Hoffs. apply length_seqZ. }
  eapply Forall_impl; [exact Hall|]. simpl.
  intros t (Hoff & s0 & s1 & Ht).
  pose proof Ht as Hinv.
  apply trial_at_inv in Hinv as (tested & simulated & Hstores & _ & Hexp & Hpi).
  apply trial_at_checks in Ht
    as (tested' & simulated' & Hstores' & Hact & Hpia & -> & ->).
  rewrite Hstores in Hstores'. injection Hstores' as <- <-.
  destruct (stores_at_same_bytes _ _ _ _ _ _ _ _ _ Hsize Hclean Hstores)
    as (mid & Hlen & Htested & Hsimulated).
  destruct (Hord (std_fill ptr 8 fill_word ++ tested)) as [Hbytes Hquiet].
  split; apply bool_decide_eq_true.
  - rewrite Hact, Hbytes, Hexp.
    rewrite (window_patched m0 ptr (offset t) tested mid) by (assumption || lia).
    rewrite (window_patched s0 reference_buffer (offset t) simulated mid)
      by (assumption || lia).
    reflexivity.
  - rewrite Hpia, Hquiet, Hpi.
    destruct Hclean as [-> | ->]; [reflexivity|].
    simpl. symmetry. apply andb_false_r.
Qed.

(** X11. On a processor whose memory under test is ordinary memory and
    which raises no PI error, every trial passes both checks, for every mode
    with the sizes [main] runs it with, when the memory is declared
    cache-backed or the mode is a string mode. *)
Theorem ordinary_memory_passes
    (processor : list insn -> hw_result) (reference_buffer : Z) (fuel : nat)
    (ptr size : Z) (cached_memory : bool) (mode : Mode) (m0 s : machine) :
  ordinary processor ptr m0 ->
  run_by_main mode size -> cached_memory = true \/ stsw mode = true ->
  (34 <= fuel)%nat ->
  exists trials : list trial,
    UnalignedStoresTest processor reference_buffer fuel ptr size cached_memory mode s
    = Some trials
    /\ length trials = Z.to_nat (33 - size)
    /\ Forall (fun t => data_ok t = true /\ pi_error_ok t = true) trials.
Proof. apply sweep_passes_on_ordinary_memory. Qed.

Lemma ordinary_memory_passes_witness :
  exists trials : list trial,
    UnalignedStoresTest (plain_processor 100) 40 34 100 2 true Swap zero_machine
    = Some trials
    /\ length trials = Z.to_nat (33 - 2)
    /\ Forall (fun t => data_ok t = true /\ pi_error_ok t = true) trials.
Proof.
  apply (ordinary_memory_passes (plain_processor 100) 40 34 100 2 true Swap
           zero_machine zero_machine).
  - intros p. split; reflexivity.
  - left. reflexivity.
  - left. reflexivity.
  - lia.
Defined.

(** ** Sizes the loops are not made for *)

Lemma sweep_loop_out_of_steps
    (processor : list insn -> hw_result) (reference_buffer : Z) (fuel : nat)
    (ptr size : Z) (cached_memory : bool) (mode : Mode) (steps : nat) :
  forall (i : Z) (s : machine),
    0 <= i -> i + Z.of_nat steps <= wrap32 (32 - size) + 1 ->
    sweep_loop processor reference_buffer fuel ptr size cached_memory mode steps i s
    = None.
Proof.
  pose proof (wrap32_range (32 - size)) as Hbound.
  induction steps as [|steps IH]; intros i s Hi Hsteps; [reflexivity|].
  simpl. destruct (Z.leb_spec i (wrap32 (32 - size))); [|lia].
  destruct (trial_at _ _ _ _ _ _ _ i s) as [[t s']|]; [|reflexivity].
  simpl. destruct steps as [|steps']; [reflexivity|].
  unfold wrap32 at 1. rewrite Z.mod_small by lia.
  rewrite IH by lia. reflexivity.
Qed.

Lemma sweep_loop_never_ends
    (processor : list insn -> hw_result) (reference_buffer : Z) (fuel : nat)
    (ptr size : Z) (cached_memory : bool) (mode : Mode) (steps : nat) :
  wrap32 (32 - size) = 2 ^ 32 - 1 ->
  forall (i : Z) (s : machine),
    0 <= i < 2 ^ 32 ->
    sweep_loop processor reference_buffer fuel ptr size cached_memory mode steps i s
    = None.
Proof.
  intros Hbound.
  induction steps as [|steps IH]; intros i s Hi; [reflexivity|].
  simpl. rewrite Hbound. destruct (Z.leb_spec i (2 ^ 32 - 1)); [|lia].
  destruct (trial_at _ _ _ _ _ _ _ i s) as [[t s']|]; [|reflexivity].
  simpl. rewrite IH by apply wrap32_range. reflexivity.
Qed.

(** X12. With a size above 32 the loop bound [32 - size] wraps around: the
    sweep does not end within [2^32 + 33 - size] steps, and with size 33 it
    does not end at all. *)
Theorem oversized_sweep_does_not_end
    (processor : list insn -> hw_result) (reference_buffer : Z) (fuel : nat)
    (ptr size : Z) (cached_memory : bool) (mode : Mode) (s : machine) :
  33 <= size < 2 ^ 32 ->
  Z.of_nat fuel <= 2 ^ 32 + 33 - size \/ size = 33 ->
  UnalignedStoresTest processor reference_buffer fuel ptr size cached_memory mode s
  = None.
Proof.
  intros Hsize Hfuel. unfold UnalignedStoresTest.
  assert (wrap32 (32 - size) = 2 ^ 32 + 32 - size) as Hbound.
  { unfold wrap32. change (2 ^ 32) with 4294967296 in *. lia_mod. }
  destruct Hfuel as [Hfuel | ->].
  - apply sweep_loop_out_of_steps; lia.
  - apply sweep_loop_never_ends; [rewrite Hbound|]; lia.
Qed.

Lemma oversized_sweep_does_not_end_witness :
  UnalignedStoresTest silent 40 50 100 33 true Stswx zero_machine = None.
Proof.
  apply (oversized_sweep_does_not_end silent 40 50 100 33 true Stswx zero_machine).
  - lia.
  - right. reflexivity.
Defined.

Lemma quirk_loop_never_ends (count base v : Z) (fuel : nat) :
  2 ^ 32 - 8 < count ->
  forall i : Z, 0 <= i < 2 ^ 32 -> i mod 8 = 0 -> quirk_loop fuel i count base v = None.
Proof.
  intros Hcount.
  induction fuel as [|fuel IH]; intros i Hi Hi8; [reflexivity|].
  simpl. change (2 ^ 32) with 4294967296 in *.
  destruct (Z.ltb_spec i count); [|lia_mod].
  rewrite IH; [reflexivity|apply wrap32_range|].
  unfold wrap32. change (2 ^ 32) with 4294967296. lia_mod.
Qed.

(** X13. When the byte count [alignment & 7 + size] of the quirk path is
    above [2^32 - 8], the loop counter wraps around before it reaches the
    count, and the model does not return. *)
Theorem oversized_quirk_store_does_not_end
    (fuel : nat) (alignment ptr value size : Z) :
  takes_quirk_path alignment size = true ->
  2 ^ 32 - 8 < wrap32 (Z.land alignment 7 + size) ->
  WriteWithSimulatedQuirks fuel alignment ptr value size = None.
Proof.
  intros Hpath Hcount. unfold WriteWithSimulatedQuirks. rewrite Hpath. cbv zeta.
  apply quirk_loop_never_ends; [assumption|lia|reflexivity].
Qed.

Lemma oversized_quirk_store_does_not_end_witness :
  WriteWithSimulatedQuirks 1000 1 41 word (2 ^ 32 - 2) = None.
Proof.
  apply (oversized_quirk_store_does_not_end 1000 1 41 word (2 ^ 32 - 2)).
  - reflexivity.
  - reflexivity.
Defined.

(** X14. With a 4-byte aligned offset and a size above 4 the model issues
    no store at all, since [Write] has no case for such a size. *)
Theorem aligned_wide_store_is_dropped (fuel : nat) (alignment ptr value size : Z) :
  alignment mod 4 = 0 -> 4 < size ->
  WriteWithSimulatedQuirks fuel alignment ptr value size = Some [].
Proof.
  intros Hal Hsize. rewrite fast_path_store by (apply takes_quirk_path_false; lia).
  f_equal. unfold Write. repeat case_match; reflexivity || lia.
Qed.

Lemma aligned_wide_store_is_dropped_witness :
  WriteWithSimulatedQuirks 0 8 48 word 8 = Some [].
Proof.
  apply (aligned_wide_store_is_dropped 0 8 48 word 8).
  - reflexivity.
  - lia.
Defined.

(** ** The buffer and the sweeps of [main] *)

(** X15. When [AlignUp] rounds up to the next multiple of the page size,
    wherever that multiple is a 32-bit value, and the arena does not end the
    address space, [GetMEM1Buffer] returns 64 bytes taken from the start of
    the arena, made of two cache lines, with a page boundary between the
    two; the new arena start is their end.  The 32 bytes that [main] tests,
    from 16 bytes into them, have the page boundary in their middle. *)
Theorem GetMEM1Buffer_straddles_a_page
    (AlignUp : Z -> Z -> Z) (mem1_lo buffer new_lo : Z) :
  (forall x : Z, 0 <= x -> x + PAGE_SIZE <= 2 ^ 32 ->
     x <= AlignUp x PAGE_SIZE < x + PAGE_SIZE /\ AlignUp x PAGE_SIZE mod PAGE_SIZE = 0) ->
  0 <= mem1_lo -> mem1_lo + 2 * CACHE_LINE_SIZE + PAGE_SIZE <= 2 ^ 32 ->
  GetMEM1Buffer AlignUp mem1_lo = (buffer, new_lo) ->
  mem1_lo <= buffer
  /\ new_lo = buffer + 2 * CACHE_LINE_SIZE
  /\ buffer mod CACHE_LINE_SIZE = 0
  /\ (buffer + CACHE_LINE_SIZE) mod PAGE_SIZE = 0
  /\ buffer + 16 < buffer + CACHE_LINE_SIZE < buffer + 16 + 32
  /\ buffer + 16 + 32 <= new_lo.
Proof.
  intros Halign Hlo Hhi. unfold GetMEM1Buffer, PAGE_SIZE, CACHE_LINE_SIZE in *.
  change (2 ^ 32) with 4294967296 in *.
  intros [= <- <-]. unfold wrap32. change (2 ^ 32) with 4294967296.
  rewrite (Z.mod_small (mem1_lo + 32)) by lia.
  destruct (Halign (mem1_lo + 32) ltac:(lia) ltac:(lia)) as [Hb Hpage].
  set (page_boundary := AlignUp _ _) in *.
  rewrite !Z.mod_small by lia.
  repeat split; lia_mod.
Qed.

Lemma GetMEM1Buffer_straddles_a_page_witness :
  0x80400000 <= 0x80400fe0
  /\ 0x80401020 = 0x80400fe0 + 2 * CACHE_LINE_SIZE
  /\ 0x80400fe0 mod CACHE_LINE_SIZE = 0
  /\ (0x80400fe0 + CACHE_LINE_SIZE) mod PAGE_SIZE = 0
  /\ 0x80400fe0 + 16 < 0x80400fe0 + CACHE_LINE_SIZE < 0x80400fe0 + 16 + 32
  /\ 0x80400fe0 + 16 + 32 <= 0x80401020.
Proof.
  apply (GetMEM1Buffer_straddles_a_page align_up 0x80400000 0x80400fe0 0x80401020).
  - intros x Hx Hfit. unfold align_up, wrap32, PAGE_SIZE in *.
    change (2 ^ 32) with 4294967296 in *. lia_mod.
  - lia.
  - unfold CACHE_LINE_SIZE, PAGE_SIZE. lia.
  - reflexivity.
Defined.

Lemma main_sweeps_sizes (cached_ptr uncached_ptr : Z) :
  Forall
    (fun '(ptr, size, cached_memory, mode) =>
       run_by_main mode size
       /\ ptr = (if cached_memory || stsw mode then cached_ptr else uncached_ptr))
    (main_sweeps cached_ptr uncached_ptr).
Proof.
  unfold main_sweeps. rewrite !Forall_app, !Forall_fmap, !Forall_seqZ.
  repeat split; try (intros; simpl; lia);
    repeat (constructor; [simpl; auto|]); constructor.
Qed.

(** X16. [main] starts 140 sweeps, and each of them ends with one trial per
    offset from 0 to 32 - size, whatever the processor answers.  Regular
    runs with the sizes 1, 2, 4, Swap with 2, 4, [stswi] with 1..32 and
    [stswx] with 0..32; only the Regular and Swap sweeps declared not
    cache-backed use the uncached pointer. *)
Theorem main_sweeps_all_end
    (processor : list insn -> hw_result) (reference_buffer : Z) (fuel : nat)
    (cached_ptr uncached_ptr : Z) (s : machine) :
  (34 <= fuel)%nat ->
  length (main_sweeps cached_ptr uncached_ptr) = 140%nat
  /\ Forall
       (fun '(ptr, size, cached_memory, mode) =>
          run_by_main mode size
          /\ ptr = (if cached_memory || stsw mode then cached_ptr else uncached_ptr)
          /\ exists trials : list trial,
               UnalignedStoresTest processor reference_buffer fuel ptr size
                 cached_memory mode s
               = Some trials
               /\ offset <$> trials = seqZ 0 (33 - size))
       (main_sweeps cached_ptr uncached_ptr).
Proof.
  intros Hfuel. split; [reflexivity|].
  eapply Forall_impl; [apply main_sweeps_sizes|].
  intros [[[ptr size] cached_memory] mode] [Hsize Hptr].
  split; [exact Hsize|]. split; [exact Hptr|].
  assert (0 <= size <= 32) as Hrange
    by (destruct mode; cbn [run_by_main] in Hsize; lia).
  destruct (UnalignedStoresTest_trials processor reference_buffer fuel ptr size
              cached_memory mode s Hrange Hfuel) as (trials & Hrun & Hoffs & _).
  exists trials. split; assumption.
Qed.

Lemma main_sweeps_all_end_witness :
  length (main_sweeps 100 200) = 140%nat
  /\ Forall
       (fun '(ptr, size, cached_memory, mode) =>
          run_by_main mode size
          /\ ptr = (if cached_memory || stsw mode then 100 else 200)
          /\ exists trials : list trial,
               UnalignedStoresTest silent 40 34 ptr size cached_memory mode
                 zero_machine
               = Some trials
               /\ offset <$> trials = seqZ 0 (33 - size))
       (main_sweeps 100 200).
Proof. apply (main_sweeps_all_end silent 40 34 100 200 zero_machine). lia. Defined.

(** X17. On a processor whose memory at the cached pointer is ordinary
    memory and which raises no PI error, every sweep of [main] that is
    declared cache-backed or uses a string mode passes both checks at every
    offset. *)
Theorem main_passes_on_ordinary_memory
    (processor : list insn -> hw_result) (reference_buffer : Z) (fuel : nat)
    (cached_ptr uncached_ptr : Z) (m0 s : machine) :
  ordinary processor cached_ptr m0 -> (34 <= fuel)%nat ->
  Forall
    (fun '(ptr, size, cached_memory, mode) =>
       cached_memory || stsw mode = true ->
       exists trials : list trial,
         UnalignedStoresTest processor reference_buffer fuel ptr size
           cached_memory mode s
         = Some trials
         /\ length trials = Z.to_nat (33 - size)
         /\ Forall (fun t => data_ok t = true /\ pi_error_ok t = true) trials)
    (main_sweeps cached_ptr uncached_ptr).
Proof.
  intros Hord Hfuel.
  eapply Forall_impl; [apply main_sweeps_sizes|].
  intros [[[ptr size] cached_memory] mode] [Hsize Hptr] Hclean.
  rewrite Hclean in Hptr. subst ptr.
  apply (sweep_passes_on_ordinary_memory processor reference_buffer fuel cached_ptr size
           cached_memory mode m0 s); try assumption.
  apply orb_true_iff in Hclean. exact Hclean.
Qed.

Lemma main_passes_on_ordinary_memory_witness :
  Forall
    (fun '(ptr, size, cached_memory, mode) =>
       cached_memory || stsw mode = true ->
       exists trials : list trial,
         UnalignedStoresTest (plain_processor 100) 40 34 ptr size
           cached_memory mode zero_machine
         = Some trials
         /\ length trials = Z.to_nat (33 - size)
         /\ Forall (fun t => data_ok t = true /\ pi_error_ok t = true) trials)
    (main_sweeps 100 200).
Proof.
  apply (main_passes_on_ordinary_memory (plain_processor 100) 40 34 100 200
           zero_machine zero_machine).
  - intros p. split; reflexivity.
  - lia.
Defined.

(** ** Every offset is exercised and reported *)

Lemma window_any_machine (rb : Z) (simulated : list insn) (s s' : machine) :
  Forall plain simulated ->
  read_bytes (mem (run (std_fill rb 8 fill_word ++ simulated) s)) rb 32
  = read_bytes (mem (run (std_fill rb 8 fill_word ++ simulated) s')) rb 32.
Proof.
  intros Hplain. unfold read_bytes.
  apply list_fmap_ext. intros k a [-> Hk]%lookup_seqZ.
  rewrite !run_app. apply plain_run; [assumption|].
  apply filled_window. lia.
Qed.

(** What [stores_at] hands to the loop body, read off the two branches. *)
Lemma stores_at_inv
    (reference_buffer : Z) (fuel : nat) (ptr size : Z) (cached_memory : bool)
    (mode : Mode) (i : Z) (tested simulated : list insn) :
  stores_at reference_buffer fuel ptr size cached_memory mode i
  = Some (tested, simulated) ->
  match mode with
  | Regular | Swap => tested = Write (ptr + i) word size (is_swap mode)
  | Stswi => WriteStswi (ptr + i) STSW_VALUES size 32 = Some tested
  | Stswx => tested = WriteStswx (ptr + i) STSW_VALUES size 32
  end
  /\ (if stsw mode
      then simulated = WriteStswSimulated (reference_buffer + i) STSW_VALUES size
      else if cached_memory
           then simulated
                = Write (reference_buffer + i) (swapped_word mode size) size false
           else WriteWithSimulatedQuirks fuel i (reference_buffer + i)
                  (swapped_word mode size) size
                = Some simulated).
Proof.
  unfold stores_at. change (Z.of_nat (length STSW_VALUES)) with 32.
  destruct mode; cbn [stsw].
  - destruct cached_memory; simpl.
    + intros [= <- <-]. split; reflexivity.
    + destruct (WriteWithSimulatedQuirks _ _ _ _ _); [|discriminate].
      simpl. intros [= <- <-]. split; reflexivity.
  - destruct cached_memory; simpl.
    + intros [= <- <-]. split; reflexivity.
    + destruct (WriteWithSimulatedQuirks _ _ _ _ _); [|discriminate].
      simpl. intros [= <- <-]. split; reflexivity.
  - destruct (WriteStswi _ _ _ _); [|discriminate].
    simpl. intros [= <- <-]. split; reflexivity.
  - simpl. intros [= <- <-]. split; reflexivity.
Qed.

(** C7. For a size from 0 to 32 the sweep records exactly one trial per
    offset 0, 1, ..., 32 - size, in this order, whatever the processor under
    test answers: a failed check at one offset does not stop the loop.  Each
    trial is that of its offset: the store under test is issued at
    [ptr + offset] after the fill, the processor's bytes and PI error flag
    are what the trial holds, the reference window is the one the model
    leaves after the fill, and both checks are recorded as they come out,
    passed or failed. *)
Theorem sweep_visits_every_offset
    (processor : list insn -> hw_result) (reference_buffer : Z) (fuel : nat)
    (ptr size : Z) (cached_memory : bool) (mode : Mode) (s : machine) :
  0 <= size <= 32 -> (34 <= fuel)%nat ->
  exists trials : list trial,
    UnalignedStoresTest processor reference_buffer fuel ptr size cached_memory mode s
    = Some trials
    /\ offset <$> trials = seqZ 0 (33 - size)
    /\ Forall
         (fun t =>
            exists tested simulated : list insn,
              match mode with
              | Regular | Swap =>
                  tested = Write (ptr + offset t) word size (is_swap mode)
              | Stswi =>
                  WriteStswi (ptr + offset t) STSW_VALUES size 32 = Some tested
              | Stswx =>
                  tested = WriteStswx (ptr + offset t) STSW_VALUES size 32
              end
              /\ (if stsw mode
                  then simulated
                       = WriteStswSimulated (reference_buffer + offset t)
                           STSW_VALUES size
                  else if cached_memory
                       then simulated
                            = Write (reference_buffer + offset t)
                                (swapped_word mode size) size false
                       else WriteWithSimulatedQuirks fuel (offset t)
                              (reference_buffer + offset t)
                              (swapped_word mode size) size
                            = Some simulated)
              /\ actual t
                 = hw_bytes (processor (std_fill ptr 8 fill_word ++ tested))
              /\ pi_error_actual t
                 = hw_pi_error (processor (std_fill ptr 8 fill_word ++ tested))
              /\ expected t
                 = read_bytes
                     (mem (run (std_fill reference_buffer 8 fill_word ++ simulated)
                             s))
                     reference_buffer 32
              /\ pi_error_expected t = negb cached_memory && negb (stsw mode)
              /\ data_ok t = bool_decide (actual t = expected t)
              /\ pi_error_ok t
                 = bool_decide (pi_error_actual t = pi_error_expected t))
         trials.
Proof.
  intros Hsize Hfuel.
  destruct (UnalignedStoresTest_trials processor reference_buffer fuel ptr size
              cached_memory mode s Hsize Hfuel) as (trials & Hrun & Hoffs & Hall).
  exists trials. split; [exact Hrun|]. split; [exact Hoffs|].
  eapply Forall_impl; [exact Hall|]. simpl.
  intros t (_ & s0 & s1 & Ht).
  pose proof Ht as Hinv.
  apply trial_at_inv in Hinv as (tested & simulated & Hstores & _ & Hexp & Hpi).
  apply trial_at_checks in Ht
    as (tested' & simulated' & Hstores' & Hact & Hpia & Hdata & Hpiok).
  rewrite Hstores in Hstores'. injection Hstores' as <- <-.
  exists tested, simulated.
  destruct (stores_at_inv _ _ _ _ _ _ _ _ _ Hstores) as [Htested Hsimulated].
  split; [exact Htested|]. split; [exact Hsimulated|].
  split; [exact Hact|]. split; [exact Hpia|]. split.
  - rewrite Hexp. apply window_any_machine.
    eapply plain_simulated. exact Hstores.
  - split; [exact Hpi|]. split; assumption.
Qed.

Lemma sweep_visits_every_offset_witness :
  exists trials : list trial,
    UnalignedStoresTest silent 40 34 100 2 false Swap zero_machine = Some trials
    /\ offset <$> trials = seqZ 0 (33 - 2)
    /\ Forall
         (fun t =>
            exists tested simulated : list insn,
              tested = Write (100 + offset t) word 2 (is_swap Swap)
              /\ WriteWithSimulatedQuirks 34 (offset t) (40 + offset t)
                   (swapped_word Swap 2) 2
                 = Some simulated
              /\ actual t
                 = hw_bytes (silent (std_fill 100 8 fill_word ++ tested))
              /\ pi_error_actual t
                 = hw_pi_error (silent (std_fill 100 8 fill_word ++ tested))
              /\ expected t
                 = read_bytes
                     (mem (run (std_fill 40 8 fill_word ++ simulated) zero_machine))
                     40 32
              /\ pi_error_expected t = negb false && negb (stsw Swap)
              /\ data_ok t = bool_decide (actual t = expected t)
              /\ pi_error_ok t
                 = bool_decide (pi_error_actual t = pi_error_expected t))
         trials.
Proof.
  apply (sweep_visits_every_offset silent 40 34 100 2 false Swap zero_machine).
  - lia.
  - lia.
Defined.

(** With a processor that answers nothing, every check of the sweep fails,
    and still every offset has its trial. *)
Example failed_checks_do_not_stop_the_sweep :
  exists trials : list trial,
    UnalignedStoresTest silent 40 34 100 2 false Swap zero_machine = Some trials
    /\ offset <$> trials = seqZ 0 31
    /\ Forall (fun t => data_ok t = false /\ pi_error_ok t = false) trials.
Proof.
  eexists. split; [vm_compute; reflexivity|]. split; [reflexivity|].
  repeat (constructor; [split; reflexivity|]). constructor.
Qed.
